(** * seoparser: the crawl engine of [seoparser/crawler.py]

    A shallow embedding of [SEOCrawler] and of the few library calls it
    relies on, followed by the properties of the crawl loop.

    - Python [int] is [Z]; [str] is [string]; [Set[str]] is [gset string];
      the [asyncio.Queue] of [(url, depth)] pairs is a FIFO list.
    - Python exceptions are explicit: an expression that may raise lives in
      [result], a loop iteration ends in an [outcome].  Library calls
      raise too: parsing a URL, parsing HTML, reading robots.txt and
      writing a file are functions into [result].
    - A [str] is held as the bytes of its UTF-8 encoding; what depends on
      Unicode ([str.strip], the white space bs4 splits attributes at) is
      left to the library, the rest is the same on bytes.
    - The outside world (HTTP answers, the progress observer, the autosave
      files) is visible as the answers handed to each operation and as the
      [event]s an operation emits. *)

From Stdlib Require Import ZArith Lia Ascii String.
From stdpp Require Import gmap strings list sorting.

#[local] Set Warnings "-clear-no-such-hyp".

#[local] Open Scope Z_scope.
#[local] Open Scope string_scope.

(** ** Python values and exceptions *)

Inductive exn :=
| AttributeError
| KeyError
| ZeroDivisionError
| ValueError               (* urllib.parse, int() *)
| ParserRejectedMarkup     (* bs4 *)
| WriteError.              (* pandas, openpyxl or the file system *)

Inductive result (A : Type) :=
| Ok (a : A)
| Raise (e : exn).
Arguments Ok {A} a.
Arguments Raise {A} e.

#[global] Instance result_ret : MRet result := fun A a => Ok a.
#[global] Instance result_bind : MBind result := fun A B f m =>
  match m with
  | Ok a => f a
  | Raise e => Raise e
  end.

(** The values that reach a truth test or a [.strip()] call in
    [parse_page]: [None], a [str], or the list bs4 stores for a
    multi-valued attribute. *)
Inductive pyval :=
| PyNone
| PyStr (s : string)
| PyList (l : list string).

Definition truthy (v : pyval) : bool :=
  match v with
  | PyNone => false
  | PyStr s => negb (String.eqb s "")
  | PyList l => negb (bool_decide (l = []))
  end.

(** ** [str] methods

    [rstrip], [startswith] and [join] are exact on UTF-8 bytes.  [strip]
    and [words] here know ASCII white space only: they are the ones of
    the example site, the crawler itself uses [Library.strip] and
    [Library.words]. *)

Module Str.

(** [str.isspace] on the ASCII range: TAB..CR, FS..US and SPACE. *)
Definition isspace (a : ascii) : bool :=
  let n := nat_of_ascii a in
  ((9 <=? n) && (n <=? 13) || (28 <=? n) && (n <=? 32))%nat.

Fixpoint lstrip_chars (l : list ascii) : list ascii :=
  match l with
  | a :: l' => if isspace a then lstrip_chars l' else l
  | [] => []
  end.

(** [s.strip()] of a [str] whose white space is ASCII *)
Definition strip (s : string) : string :=
  string_of_list_ascii
    (rev (lstrip_chars (rev (lstrip_chars (list_ascii_of_string s))))).

(** [s.startswith(p)] *)
Definition startswith (s p : string) : bool := String.prefix p s.

Fixpoint rstrip_rev (c : ascii) (l : list ascii) : list ascii :=
  match l with
  | a :: l' => if Ascii.eqb a c then rstrip_rev c l' else l
  | [] => []
  end.

(** [s.rstrip(c)] for a single character [c] *)
Definition rstrip (c : ascii) (s : string) : string :=
  string_of_list_ascii (rev (rstrip_rev c (rev (list_ascii_of_string s)))).

(** [sep.join(l)] *)
Fixpoint join (sep : string) (l : list string) : string :=
  match l with
  | [] => ""
  | [s] => s
  | s :: l' => s ++ sep ++ join sep l'
  end.

(** [re.findall(r"\S+", s)] of such a [str]: the maximal runs of
    non-space characters. *)
Fixpoint words_aux (cur : list ascii) (l : list ascii) : list string :=
  let flush := match cur with
               | [] => []
               | _ => [string_of_list_ascii (rev cur)]
               end in
  match l with
  | [] => flush
  | a :: l' => if isspace a then flush ++ words_aux [] l'
               else words_aux (a :: cur) l'
  end.

Definition words (s : string) : list string :=
  words_aux [] (list_ascii_of_string s).

End Str.

(** ** The parse tree of bs4 *)

(** A node is a tag or a string.  [NavigableString] stands for the
    strings [get_text] collects (plain strings and CDATA sections),
    [SpecialString] for those it leaves out: comments, doctypes, and the
    strings bs4 files under [script], [style], [template], [rt] and
    [rp]. *)
#[warnings="-register-all"]
Inductive node :=
| NavigableString (s : string)
| SpecialString (s : string)
| Tag (name : string) (attrs : gmap string string) (contents : list node).

(** ** [PageResult] *)

Record PageResult := {
  url : string;
  title : string;
  description : string;
  h1 : string;
  canonical : string;
  meta_robots : string;
  status : Z;
  error : string
}.

#[global] Instance PageResult_eq_dec : EqDecision PageResult.
Proof. solve_decision. Defined.

(** ** [urllib.robotparser.RobotFileParser]

    The rule matcher of the standard library, for the one user agent the
    crawler asks about (["*"]).  Cutting a line of robots.txt into its
    directive is left to [Library.robots_line]. *)

Module Robots.

Inductive line :=
| Blank                                   (* an empty line *)
| Skip                                    (* comment, sitemap, unknown key, no colon *)
| UserAgent (agent : string)
| Rule (value : string) (allow : bool)    (* allow: / disallow: *)
| Delay (raises : bool).                  (* crawl-delay: / request-rate:,
                                             and whether [int()] raises on
                                             its digits *)

Record RuleLine := { path : string; allowance : bool }.

Record Entry := { useragents : list string; rulelines : list RuleLine }.

Record RobotFileParser := {
  entries : list Entry;
  default_entry : option Entry;
  disallow_all : bool;
  allow_all : bool;
  last_checked : bool   (* only ever tested for being non-zero *)
}.

(** [RobotFileParser()] *)
Definition new : RobotFileParser :=
  {| entries := []; default_entry := None; disallow_all := false;
     allow_all := false; last_checked := false |}.

Definition empty_entry : Entry := {| useragents := []; rulelines := [] |}.

Definition add_entry (e : Entry) (p : RobotFileParser) : RobotFileParser :=
  if bool_decide ("*" ∈ useragents e) then
    match default_entry p with
    | None =>
        {| entries := entries p; default_entry := Some e;
           disallow_all := disallow_all p; allow_all := allow_all p;
           last_checked := last_checked p |}
    | Some _ => p
    end
  else
    {| entries := entries p ++ [e]; default_entry := default_entry p;
       disallow_all := disallow_all p; allow_all := allow_all p;
       last_checked := last_checked p |}.

(** [RuleLine(path, allowance)]: an empty [Disallow:] allows all; the
    path goes through [urlparse], which may raise. *)
Definition rule_line (norm : string -> result string) (value : string)
    (allow : bool) : result RuleLine :=
  p ← norm value;
  mret {| path := p; allowance := allow || String.eqb value "" |}.

(** One turn of the line loop of [parse]; the state is 0 at the start,
    1 after a user-agent line, 2 after a rule line. *)
Definition parse_line (norm : string -> result string) (l : line)
    (s : nat * Entry * RobotFileParser)
    : result (nat * Entry * RobotFileParser) :=
  let '(state, entry, p) := s in
  match l with
  | Blank =>
      match state with
      | 1%nat => mret (0%nat, empty_entry, p)
      | 2%nat => mret (0%nat, empty_entry, add_entry entry p)
      | _ => mret s
      end
  | Skip => mret s
  | UserAgent a =>
      let '(entry, p) :=
        match state with
        | 2%nat => (empty_entry, add_entry entry p)
        | _ => (entry, p)
        end in
      mret (1%nat, {| useragents := useragents entry ++ [a];
                      rulelines := rulelines entry |}, p)
  | Rule v allow =>
      match state with
      | 0%nat => mret s
      | _ => r ← rule_line norm v allow;
             mret (2%nat, {| useragents := useragents entry;
                             rulelines := rulelines entry ++ [r] |}, p)
      end
  | Delay raises =>
      match state with
      | 0%nat => mret s
      | _ => if raises then Raise ValueError else mret (2%nat, entry, p)
      end
  end.

Fixpoint parse_lines (lex : string -> line) (norm : string -> result string)
    (lines : list string) (s : nat * Entry * RobotFileParser)
    : result (nat * Entry * RobotFileParser) :=
  match lines with
  | [] => mret s
  | l :: lines' => s' ← parse_line norm (lex l) s; parse_lines lex norm lines' s'
  end.

(** [p.parse(lines)] *)
Definition parse (lex : string -> line) (norm : string -> result string)
    (lines : list string) (p : RobotFileParser) : result RobotFileParser :=
  let p := {| entries := entries p; default_entry := default_entry p;
              disallow_all := disallow_all p; allow_all := allow_all p;
              last_checked := true |} in
  s ← parse_lines lex norm lines (0%nat, empty_entry, p);
  let '(state, entry, p) := s in
  mret match state with
       | 2%nat => add_entry entry p
       | _ => p
       end.

Definition rule_applies (r : RuleLine) (filename : string) : bool :=
  String.eqb (path r) "*" || Str.startswith filename (path r).

(** [entry.allowance(filename)]: the first rule that applies decides. *)
Definition entry_allowance (e : Entry) (filename : string) : bool :=
  match List.find (fun r => rule_applies r filename) (rulelines e) with
  | Some r => allowance r
  | None => true
  end.

(** [entry.applies_to("*")]: an agent ["*"], or one whose lower-cased
    name is contained in ["*"], that is the empty name. *)
Definition entry_applies (e : Entry) : bool :=
  existsb (fun a => String.eqb a "*" || String.eqb a "") (useragents e).

(** [p.can_fetch("*", url)]; [target] turns the URL into the quoted
    path that rules are matched against, and raises where [urlparse]
    does. *)
Definition can_fetch (target : string -> result string) (p : RobotFileParser)
    (url : string) : result bool :=
  if disallow_all p then mret false
  else if allow_all p then mret true
  else if negb (last_checked p) then mret false
  else
    url ← target url;
    let url := if String.eqb url "" then "/" else url in
    mret match List.find entry_applies (entries p) with
         | Some e => entry_allowance e url
         | None =>
             match default_entry p with
             | Some e => entry_allowance e url
             | None => true
             end
         end.

End Robots.

(** ** The libraries the crawler calls

    [urllib.parse], bs4's parser, [str.strip], the robots.txt line
    reader and the file writers are code outside the repository: the
    crawler is stated over any implementation of them, and each may raise
    where the real one does. *)

Class Library := {
  (** [urlparse(url).hostname] *)
  hostname : string -> result (option string);
  (** [urljoin(base, url)] *)
  urljoin : string -> string -> result string;
  (** the top-level contents of [BeautifulSoup(html, 'html.parser')] *)
  BeautifulSoup : string -> result (list node);
  (** reading one line of robots.txt *)
  robots_line : string -> Robots.line;
  (** the normalised, quoted path of a rule *)
  rule_path : string -> result string;
  (** the quoted path-and-query of a URL asked of [can_fetch] *)
  request_path : string -> result string;
  (** [s.strip()] *)
  strip : string -> string;
  (** [re.findall(r"\S+", s)], the values of a multi-valued attribute *)
  words : string -> list string;
  (** writing the records to the file of that name ([to_csv], [to_excel],
      [json.dump], [csv.writer]) *)
  write_file : string -> list PageResult -> result unit
}.

Module Bs4.

Section WithLibrary.

Context `{Library}.

(** The table of attributes bs4's HTML builders store as lists. *)
Definition cdata_list_attribute (tag key : string) : bool :=
  bool_decide (key ∈ ["class"; "accesskey"; "dropzone"])
  || bool_decide ((tag, key) ∈
       [("a", "rel"); ("a", "rev"); ("link", "rel"); ("link", "rev");
        ("td", "headers"); ("th", "headers"); ("form", "accept-charset");
        ("object", "archive"); ("area", "rel"); ("icon", "sizes");
        ("iframe", "sandbox"); ("output", "for")]).

(** [tag.get(key)]; [None] for a missing attribute and for a text node
    reached through a tag-typed variable. *)
Definition get (n : node) (key : string) : pyval :=
  match n with
  | Tag name attrs _ =>
      match attrs !! key with
      | Some v => if cdata_list_attribute name key
                  then PyList (words v) else PyStr v
      | None => PyNone
      end
  | _ => PyNone
  end.

(** [tag[key]] *)
Definition getitem (n : node) (key : string) : result pyval :=
  match get n key with
  | PyNone => Raise KeyError
  | v => Ok v
  end.

(** An attribute filter of [find]/[find_all]: a required value
    ([rel='canonical']) or mere presence ([href=True]). *)
Inductive attr_filter :=
| HasValue (s : string)
| Present.

Definition attr_matches (v : pyval) (f : attr_filter) : bool :=
  match f, v with
  | _, PyNone => false
  | Present, _ => true
  | HasValue s, PyStr x => String.eqb x s
  | HasValue s, PyList l =>
      existsb (fun x => String.eqb x s) l || String.eqb (Str.join " " l) s
  end.

Definition matches (name : string) (fs : list (string * attr_filter))
    (n : node) : bool :=
  match n with
  | Tag nm _ _ =>
      String.eqb nm name
      && forallb (fun kf => attr_matches (get n kf.1) kf.2) fs
  | _ => false
  end.

(** A node followed by its descendants, in document order. *)
Fixpoint self_and_descendants (n : node) : list node :=
  n :: match n with
       | Tag _ _ cs => flat_map self_and_descendants cs
       | _ => []
       end.

Definition descendants (contents : list node) : list node :=
  flat_map self_and_descendants contents.

(** [soup.find_all(name, **attrs)] and [soup.find(name, **attrs)] *)
Definition find_all (soup : list node) (name : string)
    (fs : list (string * attr_filter)) : list node :=
  List.filter (matches name fs) (descendants soup).

Definition find (soup : list node) (name : string)
    (fs : list (string * attr_filter)) : option node :=
  head (find_all soup name fs).

(** [tag.string]: the single string child, looked for through single
    tag children. *)
Fixpoint string_ (n : node) : option string :=
  match n with
  | NavigableString s | SpecialString s => Some s
  | Tag _ _ cs =>
      match cs with
      | [c] => string_ c
      | _ => None
      end
  end.

(** [tag.get_text(strip=True)] of a tag other than [script], [style],
    [template], [rt] and [rp]: the strings of the kinds [get_text]
    collects there, stripped, the empty ones dropped. *)
Definition stripped_strings (n : node) : list string :=
  omap (fun d => match d with
                 | NavigableString s =>
                     let s' := strip s in
                     if String.eqb s' "" then None else Some s'
                 | _ => None
                 end)
       (match n with
        | Tag _ _ cs => descendants cs
        | _ => []
        end).

Definition get_text_strip (n : node) : string :=
  Str.join "" (stripped_strings n).

End WithLibrary.

End Bs4.

(** ** [SEOCrawler] *)

(** What a crawl does to the outside world, oldest first. *)
Inductive event :=
| EvPut (u : string) (depth : Z)         (* to_visit.put((u, depth)) *)
| EvGet (u : string) (depth : Z)         (* visited.add(u); session.get(u) *)
| EvProgress (crawled total : Z)         (* progress_callback(crawled, total) *)
| EvAutosave (rows : list PageResult).   (* autosave() called on these rows *)

(** The keyword arguments of [SEOCrawler.__init__].  [rate_limit] only
    delays requests and is left out; [progress_callback] records whether
    an observer was given. *)
Record Config := {
  max_depth : Z;
  max_pages : Z;
  include_subdomains : bool;
  autosave_interval : Z;
  progress_callback : bool
}.

Record SEOCrawler := {
  base_url : string;
  parsed_base : option string;           (* parsed_base.hostname *)
  config : Config;
  results : list PageResult;
  errors : list PageResult;
  visited : gset string;
  to_visit : list (string * Z);
  robot_parser : Robots.RobotFileParser;
  trace : list event
}.

(** What [session.get(url)] followed by [resp.text(errors='ignore')]
    gives: a status and a body, or an exception with its message. *)
Inductive fetch_outcome :=
| Response (status : Z) (text : string)
| FetchError (msg : string).

(** How an iteration of the crawl loop ends: normally, or with an
    exception leaving the loop; either way with the crawler as it is at
    that point. *)
Inductive outcome :=
| Next (c : SEOCrawler)
| Abort (e : exn) (c : SEOCrawler).

Definition state_of (o : outcome) : SEOCrawler :=
  match o with
  | Next c | Abort _ c => c
  end.

Section Crawler.

Context `{Library}.

(** [SEOCrawler(base_url, **config)]; [urlparse] may refuse the base
    URL. *)
Definition init (base : string) (cfg : Config) : result SEOCrawler :=
  let base := Str.rstrip "/" base in
  h ← hostname base;
  mret {| base_url := base; parsed_base := h; config := cfg;
          results := []; errors := []; visited := ∅; to_visit := [];
          robot_parser := Robots.new; trace := [] |}.

Definition set_robot_parser (p : Robots.RobotFileParser) (c : SEOCrawler) :=
  {| base_url := base_url c; parsed_base := parsed_base c;
     config := config c; results := results c; errors := errors c;
     visited := visited c; to_visit := to_visit c;
     robot_parser := p; trace := trace c |}.

Definition set_to_visit (q : list (string * Z)) (c : SEOCrawler) :=
  {| base_url := base_url c; parsed_base := parsed_base c;
     config := config c; results := results c; errors := errors c;
     visited := visited c; to_visit := q;
     robot_parser := robot_parser c; trace := trace c |}.

Definition emit (e : event) (c : SEOCrawler) :=
  {| base_url := base_url c; parsed_base := parsed_base c;
     config := config c; results := results c; errors := errors c;
     visited := visited c; to_visit := to_visit c;
     robot_parser := robot_parser c; trace := trace c ++ [e] |}.

(** [await self.to_visit.put((u, depth))] *)
Definition put (u : string) (depth : Z) (c : SEOCrawler) :=
  emit (EvPut u depth) (set_to_visit (to_visit c ++ [(u, depth)]) c).

(** [self.visited.add(u)], then the request for [u] goes out *)
Definition visit (u : string) (depth : Z) (c : SEOCrawler) :=
  emit (EvGet u depth)
    {| base_url := base_url c; parsed_base := parsed_base c;
       config := config c; results := results c; errors := errors c;
       visited := {[u]} ∪ visited c; to_visit := to_visit c;
       robot_parser := robot_parser c; trace := trace c |}.

(** [self.errors.append(p)] *)
Definition errors_append (p : PageResult) (c : SEOCrawler) :=
  {| base_url := base_url c; parsed_base := parsed_base c;
     config := config c; results := results c; errors := errors c ++ [p];
     visited := visited c; to_visit := to_visit c;
     robot_parser := robot_parser c; trace := trace c |}.

(** [self.results.append(p)] *)
Definition results_append (p : PageResult) (c : SEOCrawler) :=
  {| base_url := base_url c; parsed_base := parsed_base c;
     config := config c; results := results c ++ [p]; errors := errors c;
     visited := visited c; to_visit := to_visit c;
     robot_parser := robot_parser c; trace := trace c |}.

(** [len(self.results)] *)
Definition len_results (c : SEOCrawler) : Z := Z.of_nat (length (results c)).


(** *** [load_robots] *)

(** The answer to the request for [/robots.txt]: an exception from the
    request, or a status with the body's lines ([None] when reading the
    body raises). *)
Inductive robots_reply :=
| RobotsError
| RobotsStatus (status : Z) (lines : option (list string)).

Definition robots_parse (lines : list string) (p : Robots.RobotFileParser)
    : result Robots.RobotFileParser :=
  Robots.parse robots_line rule_path lines p.

(** [RobotFileParser()] after [parse([])], which reads no line. *)
Definition no_rules : Robots.RobotFileParser :=
  match robots_parse [] Robots.new with
  | Ok p => p
  | Raise _ => Robots.new
  end.

(** The body of the [try] in [load_robots]; [None] stands for an
    exception reaching the [except] clause, from the request, from
    reading the body or from the parser. *)
Definition load_robots_try (r : robots_reply) (c : SEOCrawler)
    : option SEOCrawler :=
  match r with
  | RobotsError => None
  | RobotsStatus status body =>
      if (status =? 200)%Z then
        match body with
        | Some lines =>
            match robots_parse lines (robot_parser c) with
            | Ok p => Some (set_robot_parser p c)
            | Raise _ => None
            end
        | None => None
        end
      else Some (set_robot_parser no_rules c)
  end.

Definition load_robots (r : robots_reply) (c : SEOCrawler) : SEOCrawler :=
  match load_robots_try r c with
  | Some c' => c'
  | None => set_robot_parser no_rules c
  end.

(** *** [load_sitemap] *)

(** The answer to the request for [/sitemap.xml]: an exception, or a
    status with the text of each [loc] element in document order
    ([None] for a body that is not XML; a [loc] without text has
    [None] as its text). *)
Inductive sitemap_reply :=
| SitemapError
| SitemapStatus (status : Z) (locs : option (list (option string))).

(** The [for loc in ...] loop: the first [loc] without text raises and
    ends the loop, the entries put before it stay. *)
Fixpoint put_locs (locs : list (option string)) (c : SEOCrawler) : SEOCrawler :=
  match locs with
  | Some t :: locs' => put_locs locs' (put (strip t) 0 c)
  | None :: _ | [] => c
  end.

Definition load_sitemap (r : sitemap_reply) (c : SEOCrawler) : SEOCrawler :=
  match r with
  | SitemapStatus status (Some locs) =>
      if (status =? 200)%Z then put_locs locs c else c
  | _ => c
  end.

(** *** [initialize] *)

Definition initialize (rr : robots_reply) (sr : sitemap_reply)
    (c : SEOCrawler) : SEOCrawler :=
  let c := load_robots rr c in
  let c := load_sitemap sr c in
  put (base_url c) 0 c.

(** *** [allowed] *)

Definition can_fetch (c : SEOCrawler) (u : string) : result bool :=
  Robots.can_fetch request_path (robot_parser c) u.

(** Whether the host test of [allowed] turns the URL down. *)
Definition other_host (c : SEOCrawler) (u : string) : result bool :=
  if negb (include_subdomains (config c)) then
    h ← hostname u;
    mret match h with
         | Some h => negb (String.eqb h "")
                     && negb (bool_decide (Some h = parsed_base c))
         | None => false
         end
  else mret false.

Definition allowed (c : SEOCrawler) (u : string) : result bool :=
  out ← other_host c u;
  if out : bool then mret false else can_fetch c u.

(** *** [parse_page] *)

(** [x.strip()] *)
Definition py_strip (v : pyval) : result string :=
  match v with
  | PyStr s => Ok (strip s)
  | _ => Raise AttributeError
  end.

(** [tag.string] for an optional tag *)
Definition dot_string (t : option node) : result pyval :=
  match t with
  | Some n => Ok (from_option PyStr PyNone (Bs4.string_ n))
  | None => Raise AttributeError
  end.

(** [tag.get(key)] for an optional tag *)
Definition dot_get (t : option node) (key : string) : result pyval :=
  match t with
  | Some n => Ok (Bs4.get n key)
  | None => Raise AttributeError
  end.

(** [tag[key]] for an optional tag *)
Definition dot_getitem (t : option node) (key : string) : result pyval :=
  match t with
  | Some n => Bs4.getitem n key
  | None => Raise AttributeError
  end.

(** [tag[key].strip() if tag and tag.get(key) else ''] *)
Definition attr_or_empty (t : option node) (key : string) : result string :=
  cond ← (if bool_decide (is_Some t)
          then v ← dot_get t key; mret (truthy v)
          else mret false);
  if cond : bool then v ← dot_getitem t key; py_strip v else mret "".

Definition parse_title (soup : list node) : result string :=
  let soup_title := Bs4.find soup "title" [] in
  cond ← (if bool_decide (is_Some soup_title)
          then v ← dot_string soup_title; mret (truthy v)
          else mret false);
  if cond : bool then v ← dot_string soup_title; py_strip v else mret "".

Definition parse_description (soup : list node) : result string :=
  attr_or_empty (Bs4.find soup "meta" [("name", Bs4.HasValue "description")])
                "content".

Definition parse_h1 (soup : list node) : result string :=
  match Bs4.find soup "h1" [] with
  | Some h1_tag => mret (Bs4.get_text_strip h1_tag)
  | None => mret ""
  end.

Definition parse_canonical (soup : list node) : result string :=
  attr_or_empty (Bs4.find soup "link" [("rel", Bs4.HasValue "canonical")])
                "href".

Definition parse_meta_robots (soup : list node) : result string :=
  attr_or_empty (Bs4.find soup "meta" [("name", Bs4.HasValue "robots")])
                "content".

Definition parse_page (u : string) (st : Z) (html : string)
    : result PageResult :=
  soup ← BeautifulSoup html;
  t ← parse_title soup;
  d ← parse_description soup;
  h ← parse_h1 soup;
  cn ← parse_canonical soup;
  mr ← parse_meta_robots soup;
  mret {| url := u; title := t; description := d; h1 := h; canonical := cn;
          meta_robots := mr; status := st; error := "" |}.

(** *** [extract_links] *)

(** [a['href']] of every [a] found by [find_all('a', href=True)] *)
Definition anchor_hrefs (soup : list node) : list string :=
  omap (fun a => match a with
                 | Tag _ attrs _ => attrs !! "href"
                 | _ => None
                 end)
       (Bs4.find_all soup "a" [("href", Bs4.Present)]).

(** [href.startswith('http') and self.allowed(href)] *)
Definition keep_link (c : SEOCrawler) (href : string) : result bool :=
  if Str.startswith href "http" then allowed c href else mret false.

(** The [for a in ...] loop: the first call that raises ends it. *)
Fixpoint keep_links (c : SEOCrawler) (base : string) (hrefs : list string)
    : result (list string) :=
  match hrefs with
  | [] => mret []
  | h :: hrefs' =>
      href ← urljoin base h;
      keep ← keep_link c href;
      links ← keep_links c base hrefs';
      mret (if keep : bool then href :: links else links)
  end.

Definition extract_links (c : SEOCrawler) (html base : string)
    : result (list string) :=
  soup ← BeautifulSoup html;
  keep_links c base (anchor_hrefs soup).

(** *** [autosave] *)

Definition autosave (c : SEOCrawler) : result unit :=
  _ ← write_file "autosave.csv" (results c);
  write_file "autosave.xlsx" (results c).

(** *** [crawl] *)

(** [PageResult(url=u, status=0, error=msg)] *)
Definition error_result (u msg : string) : PageResult :=
  {| url := u; title := ""; description := ""; h1 := ""; canonical := "";
     meta_robots := ""; status := 0; error := msg |}.

(** The [for link in ...] loop that ends an iteration. *)
Definition put_links (links : list string) (depth : Z) (c : SEOCrawler)
    : SEOCrawler :=
  fold_left (fun c link =>
               if bool_decide (link ∈ visited c) then c else put link depth c)
            links c.

(** The end of an answered iteration: the links of a page answered with
    200 above the depth bound are extracted, then queued. *)
Definition follow_links (u : string) (depth st : Z) (text : string)
    (c : SEOCrawler) : outcome :=
  if (st =? 200)%Z && (depth <? max_depth (config c))%Z then
    match extract_links c text u with
    | Ok links => Next (put_links links (depth + 1) c)
    | Raise e => Abort e c
    end
  else Next c.

(** The iteration from [parse_page] on, for a request that was
    answered.  Nothing here is inside a [try]. *)
Definition record_page (u : string) (depth st : Z) (text : string)
    (c : SEOCrawler) : outcome :=
  match parse_page u st text with
  | Raise e => Abort e c
  | Ok page =>
      let c := if negb (st =? 200)%Z then errors_append page c else c in
      let c := results_append page c in
      let c := if progress_callback (config c)
               then emit (EvProgress (len_results c) (max_pages (config c))) c
               else c in
      if (autosave_interval (config c) =? 0)%Z then Abort ZeroDivisionError c
      else if (len_results c mod autosave_interval (config c) =? 0)%Z then
        let c := emit (EvAutosave (results c)) c in
        match autosave c with
        | Ok _ => follow_links u depth st text c
        | Raise e => Abort e c
        end
      else follow_links u depth st text c
  end.

(** One iteration of the [while] loop; [o] is what the network answers
    if the iteration gets as far as the request.  The loop condition
    keeps the queue non-empty here. *)
Definition loop_body (o : fetch_outcome) (c : SEOCrawler) : outcome :=
  match to_visit c with
  | [] => Next c
  | (u, depth) :: q =>
      let c := set_to_visit q c in
      if bool_decide (u ∈ visited c) || (max_depth (config c) <? depth)%Z
      then Next c
      else
        match allowed c u with
        | Raise e => Abort e c
        | Ok false => Next c
        | Ok true =>
            let c := visit u depth c in
            match o with
            | FetchError msg => Next (errors_append (error_result u msg) c)
            | Response st text => record_page u depth st text c
            end
        end
  end.

(** [not self.to_visit.empty() and len(self.results) < self.max_pages] *)
Definition loop_cond (c : SEOCrawler) : bool :=
  negb (bool_decide (to_visit c = []))
  && (len_results c <? max_pages (config c))%Z.

(** The [while] loop.  [net i] is the network's answer in iteration [i];
    [None] means the fuel ran out first. *)
Fixpoint crawl_loop (fuel : nat) (net : nat -> fetch_outcome) (i : nat)
    (c : SEOCrawler) : option outcome :=
  if loop_cond c then
    match fuel with
    | O => None
    | S fuel' =>
        match loop_body (net i) c with
        | Next c' => crawl_loop fuel' net (S i) c'
        | Abort e c' => Some (Abort e c')
        end
    end
  else Some (Next c).

Definition crawl (fuel : nat) (rr : robots_reply) (sr : sitemap_reply)
    (net : nat -> fetch_outcome) (c : SEOCrawler) : option outcome :=
  crawl_loop fuel net 0 (initialize rr sr c).

(** The points a crawl that starts its loop in [c0] can be at: the start
    of the loop, and the end of an iteration entered with the loop
    condition true, whatever the network answers. *)
Inductive reaches (c0 : SEOCrawler) : outcome -> Prop :=
| reaches_start : reaches c0 (Next c0)
| reaches_iter c o :
    reaches c0 (Next c) -> loop_cond c = true ->
    reaches c0 (loop_body o c).

(** The URLs requested according to a trace, oldest first. *)
Definition fetched (tr : list event) : list string :=
  omap (fun e => match e with EvGet u _ => Some u | _ => None end) tr.

End Crawler.

(** ** A fragment of [urllib.parse]

    Scheme, authority and reference resolution for URLs without IPv6
    literals, dot segments or percent escapes: enough to run the crawler
    on concrete sites. *)

Module Urllib.

Definition between (lo hi : nat) (a : ascii) : bool :=
  let n := nat_of_ascii a in ((lo <=? n) && (n <=? hi))%nat.

Definition isalpha (a : ascii) : bool := between 65 90 a || between 97 122 a.

Definition scheme_char (a : ascii) : bool :=
  isalpha a || between 48 57 a || bool_decide (a ∈ ["+"; "-"; "."]%char).

Definition lower_char (a : ascii) : ascii :=
  if between 65 90 a then ascii_of_nat (nat_of_ascii a + 32) else a.

Definition lower (l : list ascii) : list ascii := map lower_char l.

(** [l.partition(c)]: the text before and after the first [c]. *)
Fixpoint partition (c : ascii) (l : list ascii)
    : option (list ascii * list ascii) :=
  match l with
  | [] => None
  | a :: l' =>
      if Ascii.eqb a c then Some ([], l')
      else match partition c l' with
           | Some (pre, post) => Some (a :: pre, post)
           | None => None
           end
  end.

(** The scheme of a URL, lower-cased, and the rest; an empty scheme when
    the text before the first colon is not a scheme name. *)
Definition split_scheme (l : list ascii) : list ascii * list ascii :=
  match partition ":" l with
  | Some (a :: pre, post) =>
      if isalpha a && forallb scheme_char pre then (lower (a :: pre), post)
      else ([], l)
  | _ => ([], l)
  end.

(** [urlparse(url).scheme] *)
Definition scheme (u : string) : string :=
  string_of_list_ascii (split_scheme (list_ascii_of_string u)).1.

Definition path_start (a : ascii) : bool :=
  bool_decide (a ∈ ["/"; "?"; "#"]%char).

Fixpoint span_until (stop : ascii -> bool) (l : list ascii)
    : list ascii * list ascii :=
  match l with
  | [] => ([], [])
  | a :: l' =>
      if stop a then ([], l)
      else let '(pre, post) := span_until stop l' in (a :: pre, post)
  end.

(** Scheme, authority and the rest (path, query and fragment). *)
Definition split (l : list ascii) : list ascii * list ascii * list ascii :=
  let '(sch, rest) := split_scheme l in
  match rest with
  | "/"%char :: "/"%char :: rest' =>
      let '(netloc, tail) := span_until path_start rest' in
      (sch, netloc, tail)
  | _ => (sch, [], rest)
  end.

(** [l.rpartition(c)[2]]: the text after the last [c]. *)
Definition after_last (c : ascii) (l : list ascii) : list ascii :=
  rev (span_until (Ascii.eqb c) (rev l)).1.

(** Whether [urlsplit] raises [ValueError("Invalid IPv6 URL")]: the
    authority has one square bracket without the other. *)
Definition invalid_ipv6 (u : string) : bool :=
  let '(_, netloc, _) := split (list_ascii_of_string u) in
  xorb (bool_decide ("["%char ∈ netloc)) (bool_decide ("]"%char ∈ netloc)).

(** [urlparse(url).hostname], where [urlparse] returns *)
Definition hostname (u : string) : option string :=
  let '(_, netloc, _) := split (list_ascii_of_string u) in
  let host := (span_until (Ascii.eqb ":") (after_last "@" netloc)).1 in
  match host with
  | [] => None
  | _ => Some (string_of_list_ascii (lower host))
  end.

Definition uses_relative : list string :=
  [""; "ftp"; "http"; "gopher"; "nntp"; "imap"; "wais"; "file"; "https";
   "shttp"; "mms"; "prospero"; "rtsp"; "rtsps"; "rtspu"; "sftp"; "svn";
   "svn+ssh"; "ws"; "wss"].

(** The path of the base up to and including its last slash. *)
Definition directory (path : list ascii) : list ascii :=
  let path := (span_until (fun a => bool_decide (a ∈ ["?"; "#"]%char)) path).1 in
  match (span_until (Ascii.eqb "/") (rev path)).2 with
  | [] => ["/"%char]
  | rest => rev rest
  end.

(** [urljoin(base, url)], where it returns *)
Definition urljoin (base url : string) : string :=
  if String.eqb base "" then url
  else if String.eqb url "" then base
  else
    let '(bscheme, bnetloc, bpath) := split (list_ascii_of_string base) in
    let '(sch, netloc, path) := split (list_ascii_of_string url) in
    let sch' := match sch with [] => bscheme | _ => sch end in
    if negb (bool_decide (sch' = bscheme))
       || negb (bool_decide (string_of_list_ascii sch' ∈ uses_relative))
    then url
    else
      let root := fun nl => (sch' ++ list_ascii_of_string "://" ++ nl)%list in
      string_of_list_ascii
        match netloc, path with
        | _ :: _, _ => (root netloc ++ path)%list
        | [], "/"%char :: _ => (root bnetloc ++ path)%list
        | [], _ => (root bnetloc ++ directory bpath ++ path)%list
        end.

(** The path, query and fragment of a URL, as [can_fetch] rebuilds it
    before matching rules. *)
Definition request_path (u : string) : string :=
  string_of_list_ascii (split (list_ascii_of_string u)).2.

(** Whether a string passes [str.isdigit], and if so whether [int()]
    raises on it.  Of the digits that are no decimal digits the fragment
    knows the superscripts U+00B2, U+00B3 and U+00B9: in UTF-8, byte 194
    and then byte 178, 179 or 185. *)
Fixpoint superscripts (l : list ascii) : option bool :=
  match l with
  | [] => Some false
  | c :: l' =>
      let n := nat_of_ascii c in
      if (48 <=? n)%nat && (n <=? 57)%nat then superscripts l'
      else if (n =? 194)%nat then
        match l' with
        | d :: l'' =>
            let m := nat_of_ascii d in
            if (m =? 178)%nat || (m =? 179)%nat || (m =? 185)%nat
            then match superscripts l'' with
                 | Some _ => Some true
                 | None => None
                 end
            else None
        | [] => None
        end
      else None
  end.

Definition isdigit (v : string) : bool :=
  negb (String.eqb v "")
  && bool_decide (is_Some (superscripts (list_ascii_of_string v))).

(** [v.isdigit()] holds and [int(v)] raises [ValueError] *)
Definition int_rejects (v : string) : bool :=
  isdigit v
  && bool_decide (superscripts (list_ascii_of_string v) = Some true).

(** The test and the conversions of [parse] at a crawl-delay and at a
    request-rate line. *)
Definition crawl_delay_raises (value : string) : bool :=
  int_rejects (Str.strip value).

Definition request_rate_raises (value : string) : bool :=
  match partition "/" (list_ascii_of_string value) with
  | Some (a, b) =>
      let a := Str.strip (string_of_list_ascii a) in
      let b := Str.strip (string_of_list_ascii b) in
      isdigit a && isdigit b && (int_rejects a || int_rejects b)
  | None => false
  end.

(** Reading a line of robots.txt as [RobotFileParser.parse] does. *)
Definition robots_line (line : string) : Robots.line :=
  if String.eqb line "" then Robots.Blank
  else
    let l := list_ascii_of_string line in
    let l := (span_until (Ascii.eqb "#") l).1 in
    match partition ":" l with
    | Some (key, value) =>
        let key := Str.strip (string_of_list_ascii (lower key)) in
        let value := Str.strip (string_of_list_ascii value) in
        if String.eqb key "user-agent" then Robots.UserAgent value
        else if String.eqb key "disallow" then Robots.Rule value false
        else if String.eqb key "allow" then Robots.Rule value true
        else if String.eqb key "crawl-delay"
        then Robots.Delay (crawl_delay_raises value)
        else if String.eqb key "request-rate"
        then Robots.Delay (request_rate_raises value)
        else Robots.Skip
    | None => Robots.Skip
    end.

End Urllib.

(** The library a concrete site is crawled with: the fragment above, a
    parser that knows the parse tree of each of the site's documents and
    the documents it rejects, and a file system that refuses the names in
    [unwritable]. *)
Definition site_library (pages : list (string * list node))
    (rejected unwritable : list string) : Library :=
  let checked {A} (u : string) (v : A) : result A :=
    if Urllib.invalid_ipv6 u then Raise ValueError else Ok v in
  {| hostname := fun u => checked u (Urllib.hostname u);
     urljoin := fun base u =>
       if String.eqb base "" then Ok u
       else if String.eqb u "" then Ok base
       else if Urllib.invalid_ipv6 base then Raise ValueError
       else checked u (Urllib.urljoin base u);
     BeautifulSoup := fun html =>
       if bool_decide (html ∈ rejected) then Raise ParserRejectedMarkup
       else Ok (from_option snd []
                  (List.find (fun p => String.eqb p.1 html) pages));
     robots_line := Urllib.robots_line;
     rule_path := fun v => checked v v;
     request_path := fun u => checked u (Urllib.request_path u);
     strip := Str.strip;
     words := Str.words;
     write_file := fun name _ =>
       if bool_decide (name ∈ unwritable) then Raise WriteError else Ok tt |}.

(** The notions the statements below are phrased with. *)

(** The [href] of every [a] element that has one, in document order. *)
Definition document_hrefs (soup : list node) : list string :=
  omap (fun n => match n with
                 | Tag nm attrs _ =>
                     if String.eqb nm "a" then attrs !! "href" else None
                 | _ => None
                 end)
       (Bs4.descendants soup).

(** A URL is in scope when hosts are not compared, when it names no
    host, or when it names the host of the base URL. *)
Definition in_scope `{Library} (c : SEOCrawler) (u : string) : Prop :=
  include_subdomains (config c) = true
  \/ hostname u = Ok None \/ hostname u = Ok (Some "")
  \/ hostname u = Ok (parsed_base c).


(** Walking a trace oldest first, no URL is put on the queue once it has
    been requested; [seen] holds the URLs requested before the trace. *)
Fixpoint no_requeue (seen : gset string) (tr : list event) : Prop :=
  match tr with
  | [] => True
  | EvGet u _ :: tr' => no_requeue ({[u]} ∪ seen) tr'
  | EvPut u _ :: tr' => (u ∉ seen) /\ no_requeue seen tr'
  | _ :: tr' => no_requeue seen tr'
  end.

(** The crawler [c] after an iteration that appended [rs] to the
    results and [es] to the errors, marked [vis] as visited, left [q] as
    the queue and emitted [evs]. *)
Definition grow (rs es : list PageResult) (vis : gset string)
    (q : list (string * Z)) (evs : list event) (c : SEOCrawler) : SEOCrawler :=
  {| base_url := base_url c; parsed_base := parsed_base c; config := config c;
     results := results c ++ rs; errors := errors c ++ es;
     visited := vis ∪ visited c; to_visit := q;
     robot_parser := robot_parser c; trace := trace c ++ evs |}.

(** The observer's call at the end of an answered request, if an
    observer is registered. *)
Definition progress_events (c : SEOCrawler) : list event :=
  if progress_callback (config c)
  then [EvProgress (Z.of_nat (length (results c)) + 1) (max_pages (config c))]
  else [].

(** The call of [autosave] at the end of an answered request that makes
    the number of results a multiple of the (non-zero) interval. *)
Definition autosave_events (c : SEOCrawler) (page : PageResult) : list event :=
  if ((Z.of_nat (length (results c)) + 1) mod autosave_interval (config c) =? 0)%Z
  then [EvAutosave (results c ++ [page])]
  else [].

(** The links of the page at [u], found in an entry of depth [d], that
    the iteration puts on the queue; [c] is the crawler once [u] is
    marked visited. *)
Definition discovered `{Library} (c : SEOCrawler) (u : string) (d st : Z)
    (text : string) : list string :=
  if (st =? 200)%Z && (d <? max_depth (config c))%Z
  then match extract_links c text u with
       | Ok links =>
           List.filter (fun l => negb (bool_decide (l ∈ visited c))) links
       | Raise _ => []
       end
  else [].

(** Every request in a trace was for a queue entry no deeper than
    [bound]. *)
Definition gets_within (bound : Z) (tr : list event) : Prop :=
  Forall (fun e => match e with EvGet _ d => (d <= bound)%Z | _ => True end) tr.

(** Events that follow the request within an iteration: no further
    request, and puts only of URLs outside [vis]. *)
Definition quiet (vis : gset string) (evs : list event) : Prop :=
  Forall (fun e => match e with
                   | EvGet _ _ => False
                   | EvPut l _ => l ∉ vis
                   | _ => True
                   end) evs.

(** What the crawl loop maintains about visits. *)
Record visits_ok (c : SEOCrawler) : Prop := {
  vis_fetched : forall u, u ∈ visited c <-> u ∈ fetched (trace c);
  vis_nodup : NoDup (fetched (trace c));
  vis_results : map url (results c) `sublist_of` fetched (trace c);
  vis_requeue : no_requeue ∅ (trace c);
  vis_depth : gets_within (max_depth (config c)) (trace c)
}.

(** A crawler that has made no request and recorded nothing yet. *)
Record fresh (c : SEOCrawler) : Prop := {
  fresh_results : results c = [];
  fresh_errors : errors c = [];
  fresh_visited : visited c = ∅;
  fresh_trace : Forall (fun e => exists u d, e = EvPut u d) (trace c)
}.

(** Every entry of a queue is a seed (depth 0) or no deeper than
    [bound]. *)
Definition queue_within (bound : Z) (q : list (string * Z)) : Prop :=
  Forall (fun e => e.2 = 0%Z \/ (e.2 <= bound)%Z) q.

(** Every error either is among the results or records a request that
    raised. *)

(** Every error either is among the results or records a request that
    raised. *)
Definition errors_ok (c : SEOCrawler) : Prop :=
  forall p, p ∈ errors c ->
    p ∈ results c \/ exists u msg, p = error_result u msg.

(** The exception an outcome carries, if any. *)
Definition raised (r : outcome) : option exn :=
  match r with
  | Next _ => None
  | Abort e _ => Some e
  end.

(** How an answered iteration ends once its record [page] is appended
    to the results of [c]: [auto] is the call of [autosave] it makes,
    [ls] are the links it queues and [r] is the exception it raises.  The
    test of the autosave interval raises when the interval is 0;
    otherwise the iteration ends in the queueing of the links, after
    the call of [autosave] has returned if there is one, or in an
    exception from [autosave] or from [extract_links]. *)
Definition ends_with `{Library} (c : SEOCrawler) (u : string) (d st : Z)
    (text : string) (page : PageResult) (auto : list event)
    (ls : list string) (r : option exn) : Prop :=
  (autosave_interval (config c) = 0%Z /\ auto = [] /\ ls = []
   /\ r = Some ZeroDivisionError)
  \/ (autosave_interval (config c) <> 0%Z /\ auto = autosave_events c page
      /\ ((ls = discovered (visit u d c) u d st text /\ r = None
           /\ (auto = [] \/ autosave (results_append page c) = Ok tt))
          \/ (ls = []
              /\ exists e, r = Some e
                 /\ (autosave (results_append page c) = Raise e
                     \/ extract_links c text u = Raise e)))).

(** The text of an element or attribute as [parse_page] stores it:
    stripped, and empty when there is none or when it is empty. *)
Definition stripped_or_empty `{Library} (o : option string) : string :=
  match o with
  | Some s => if String.eqb s "" then "" else strip s
  | None => ""
  end.

(** The attribute [key] of the first element named [name] that passes
    the filters [fs]. *)
Definition first_attr `{Library} (soup : list node) (name : string)
    (fs : list (string * Bs4.attr_filter)) (key : string) : option string :=
  match Bs4.find soup name fs with
  | Some (Tag _ attrs _) => attrs !! key
  | _ => None
  end.

(** The record of a page by the rules of the page analyzer: each field
    read off the parse tree on its own. *)
Definition analyzed `{Library} (u : string) (st : Z) (soup : list node)
    : PageResult :=
  {| url := u;
     title := stripped_or_empty (Bs4.find soup "title" [] ≫= Bs4.string_);
     description :=
       stripped_or_empty
         (first_attr soup "meta" [("name", Bs4.HasValue "description")]
                     "content");
     h1 := from_option Bs4.get_text_strip "" (Bs4.find soup "h1" []);
     canonical :=
       stripped_or_empty
         (first_attr soup "link" [("rel", Bs4.HasValue "canonical")] "href");
     meta_robots :=
       stripped_or_empty
         (first_attr soup "meta" [("name", Bs4.HasValue "robots")] "content");
     status := st;
     error := "" |}.

(** Whether [allowed] returns [True] for a URL. *)
Definition admits `{Library} (c : SEOCrawler) (u : string) : bool :=
  match allowed c u with
  | Ok true => true
  | _ => false
  end.

(** An exception that a call into a library raised in the iteration of
    [c] that takes [(u, _)] off the queue and is answered by [o]. *)
Definition library_raised `{Library} (c : SEOCrawler) (u : string)
    (o : fetch_outcome) (e : exn) : Prop :=
  allowed c u = Raise e
  \/ exists st text,
       o = Response st text
       /\ (parse_page u st text = Raise e
           \/ exists page,
                parse_page u st text = Ok page
                /\ (autosave (results_append page c) = Raise e
                    \/ extract_links c text u = Raise e)).

(** ** A site to run the crawler on

    One page at [https://example.com], titled Home, with a link to
    [/about] and a link whose URL has the scheme [httpx]; and a document
    that the HTML parser rejects. *)
Module Site.

Definition home_html : string :=
  "<title>Home</title><a href='/about'>About</a><a href='httpx://example.com/'>x</a>".

Definition home : list node :=
  [Tag "title" ∅ [NavigableString "Home"];
   Tag "a" {[ "href" := "/about" ]} [NavigableString "About"];
   Tag "a" {[ "href" := "httpx://example.com/" ]} [NavigableString "x"]].

(** A declaration that [html.parser] asserts on; bs4 re-raises the
    assertion as [ParserRejectedMarkup]. *)
Definition rejected_html : string := "<![foo]>".

Definition lib : Library := site_library [(home_html, home)] [rejected_html] [].

(** The same site on a file system that refuses [autosave.xlsx]. *)
Definition lib_no_xlsx : Library :=
  site_library [(home_html, home)] [rejected_html] ["autosave.xlsx"].

Definition cfg : Config :=
  {| max_depth := 1; max_pages := 10; include_subdomains := false;
     autosave_interval := 2; progress_callback := true |}.

(** [SEOCrawler("https://example.com/", **cfg)] *)
Definition created (cfg : Config) : SEOCrawler :=
  {| base_url := "https://example.com"; parsed_base := Some "example.com";
     config := cfg; results := []; errors := []; visited := ∅;
     to_visit := []; robot_parser := Robots.new; trace := [] |}.

(** The crawler after [initialize], robots.txt being answered with 404
    and sitemap.xml listing a [loc] that names no host. *)
Definition start : SEOCrawler :=
  @initialize lib (RobotsStatus 404 None)
    (SitemapStatus 200 (Some [Some " /orphan "])) (created cfg).

(** The same crawler with a negative page cap. *)
Definition cfg_capped : Config :=
  {| max_depth := 1; max_pages := -1; include_subdomains := false;
     autosave_interval := 2; progress_callback := true |}.

Definition start_capped : SEOCrawler :=
  @initialize lib (RobotsStatus 404 None) SitemapError (created cfg_capped).

(** The crawler about to request the home page. *)
Definition at_home : SEOCrawler :=
  @initialize lib (RobotsStatus 404 None) SitemapError (created cfg).



(** A network that answers the first request with the home page and
    every later one with 404. *)
Definition net (i : nat) : fetch_outcome :=
  match i with
  | O => Response 200 home_html
  | _ => Response 404 ""
  end.


(** A robots.txt whose crawl delay passes [isdigit] and is refused by
    [int()]: the digit is U+00B2, bytes 194 and 178 in UTF-8. *)
Definition crawl_delay_line : string :=
  "Crawl-delay: " ++ String "194" (String "178" "").

Definition robots_delay : list string :=
  ["User-agent: *"; "Disallow: /"; crawl_delay_line].

End Site.

(** ** Exports, and the window that drives the crawler *)

(** A file that was written in full: its name and the records it
    holds, in order.  How pandas, [json] and [csv] lay the records out is
    not part of the model, nor is what a write that raises leaves on the
    disk. *)
Record file_write := {
  file_name : string;
  file_rows : list PageResult
}.

(** A step that writes files: from the files written in full so far to
    those written in full after it, with the exception that ended it if
    one did. *)
Definition io : Type := list file_write -> list file_write * result unit.

Definition skip : io := fun fs => (fs, Ok tt).

Definition raise (e : exn) : io := fun fs => (fs, Raise e).

Definition and_then (m k : io) : io := fun fs =>
  match m fs with
  | (fs', Ok _) => k fs'
  | (fs', Raise e) => (fs', Raise e)
  end.

(** Writing one file; a write that raises has written no file in
    full. *)
Definition write `{Library} (name : string) (rows : list PageResult) : io :=
  fun fs =>
    match write_file name rows with
    | Ok _ => ((fs ++ [{| file_name := name; file_rows := rows |}])%list, Ok tt)
    | Raise e => (fs, Raise e)
    end.

(** [export(basename)] *)
Definition export `{Library} (basename : string) (c : SEOCrawler) : io :=
  and_then (write (basename ++ ".csv") (results c))
 (and_then (write (basename ++ ".xlsx") (results c))
 (and_then (write (basename ++ ".json") (results c))
           match errors c with
           | [] => skip
           | _ => write (basename ++ "_errors.log") (errors c)
           end)).

(** The files of a complete export, in the order they are written:
    the three renderings of [results], then the log of [errors] if there
    are any. *)
Definition export_files (basename : string) (c : SEOCrawler)
    : list file_write :=
  [ {| file_name := basename ++ ".csv"; file_rows := results c |};
    {| file_name := basename ++ ".xlsx"; file_rows := results c |};
    {| file_name := basename ++ ".json"; file_rows := results c |} ]
  ++ match errors c with
     | [] => []
     | _ => [ {| file_name := basename ++ "_errors.log";
                 file_rows := errors c |} ]
     end.

(** The library writes the file. *)
Definition writable `{Library} (f : file_write) : Prop :=
  write_file (file_name f) (file_rows f) = Ok tt.

Module Gui.

(** [path.rsplit('.', 1)[0]]: the text before the last dot, the whole
    text when there is no dot. *)
Definition rsplit_dot (path : string) : string :=
  match Urllib.partition "." (rev (list_ascii_of_string path)) with
  | Some (_, before) => string_of_list_ascii (rev before)
  | None => path
  end.

(** [MainWindow.export_results], [path] being what the file dialog
    returned (empty when it was cancelled) and [crawler] the window's
    [self.crawler], [None] until [start_crawl] has created one. *)
Definition export_results `{Library} (path : string)
    (crawler : option SEOCrawler) : io :=
  if String.eqb path "" then skip
  else match crawler with
       | Some c => export (rsplit_dot path) c
       | None => raise AttributeError
       end.

(** The configuration of [SEOCrawler(url, progress_callback=...)]: the
    defaults of [__init__] and a registered observer. *)
Definition default_config : Config :=
  {| max_depth := 2; max_pages := 100; include_subdomains := false;
     autosave_interval := 50; progress_callback := true |}.

(** [MainWindow.start_crawl]: what creating the crawler from the text of
    the URL field gives, [None] when it returns without creating one. *)
Definition start_crawl `{Library} (text : string)
    : option (result SEOCrawler) :=
  let u := strip text in
  if String.eqb u "" then None else Some (init u default_config).

Definition headers : list string :=
  ["URL"; "Title"; "Description"; "H1"; "Canonical"; "Meta Robots"; "Status"].

(** A cell value: a [str] or an [int] field of a record. *)
Inductive cell :=
| CellStr (s : string)
| CellInt (n : Z).

(** [asdict(page)] *)
Definition asdict (p : PageResult) : list (string * cell) :=
  [("url", CellStr (url p)); ("title", CellStr (title p));
   ("description", CellStr (description p)); ("h1", CellStr (h1 p));
   ("canonical", CellStr (canonical p));
   ("meta_robots", CellStr (meta_robots p));
   ("status", CellInt (status p)); ("error", CellStr (error p))].

(** [header.replace(' ', '_').lower()] *)
Definition header_key (header : string) : string :=
  string_of_list_ascii
    (map (fun a => Urllib.lower_char (if Ascii.eqb a " " then "_"%char else a))
         (list_ascii_of_string header)).

(** [ResultTableModel.data(index, Qt.DisplayRole)] for a valid index at
    [row] and [col]; [None] stands for the [IndexError] or [KeyError] the
    lookups would raise. *)
Definition display (data : list PageResult) (row col : nat) : option cell :=
  page ← data !! row;
  header ← headers !! col;
  snd <$> List.find (fun kv => String.eqb kv.1 (header_key header)) (asdict page).

(** [ResultTableModel.data(index, Qt.BackgroundRole)]: whether the cell
    gets the highlighting brush. *)
Definition highlighted (data : list PageResult) (row : nat) : option bool :=
  page ← data !! row; Some (negb (status page =? 200)%Z).

End Gui.

(** ** More views of a trace *)

(** The depths of the requests in a trace, oldest first. *)
Definition get_depths (tr : list event) : list Z :=
  omap (fun e => match e with EvGet _ d => Some d | _ => None end) tr.

(** The rows of the calls of [autosave] in a trace, oldest first. *)
Definition snapshots (tr : list event) : list (list PageResult) :=
  omap (fun e => match e with EvAutosave rows => Some rows | _ => None end) tr.

(** The arguments of the observer's calls in a trace, oldest first. *)
Definition progress_calls (tr : list event) : list (Z * Z) :=
  omap (fun e => match e with EvProgress n m => Some (n, m) | _ => None end) tr.


(** The observer's calls of a crawl with [n] results. *)
Definition expected_progress (c : SEOCrawler) : list (Z * Z) :=
  if progress_callback (config c)
  then map (fun k => (Z.of_nat k, max_pages (config c)))
           (seq 1 (length (results c)))
  else [].


(** The records of a crawler: results and errors. *)
Definition records (c : SEOCrawler) : list PageResult :=
  results c ++ errors c.

(** The texts of the [loc] elements that [load_sitemap] gets to: those
    before the first [loc] without text, of an answer with status 200
    whose body is XML. *)
Fixpoint loc_texts (locs : list (option string)) : list string :=
  match locs with
  | Some t :: locs' => t :: loc_texts locs'
  | None :: _ | [] => []
  end.

Definition sitemap_seeds (sr : sitemap_reply) : list string :=
  match sr with
  | SitemapStatus st (Some locs) => if (st =? 200)%Z then loc_texts locs else []
  | _ => []
  end.

(** Two more runs on the site: one iteration answered with the home
    page, and a crawler whose [max_depth] is negative. *)
Module Runs.

Definition home_step : outcome :=
  @loop_body Site.lib (Response 200 Site.home_html) Site.at_home.

Definition cfg_no_depth : Config :=
  {| max_depth := -1; max_pages := 10; include_subdomains := false;
     autosave_interval := 2; progress_callback := true |}.

Definition no_depth_step : outcome :=
  @loop_body Site.lib (Response 200 Site.home_html)
    (@initialize Site.lib (RobotsStatus 404 None) SitemapError
       (Site.created cfg_no_depth)).

End Runs.

(** The cells of a table row, column by column. *)
Definition row_cells (p : PageResult) : list Gui.cell :=
  [Gui.CellStr (url p); Gui.CellStr (title p); Gui.CellStr (description p);
   Gui.CellStr (h1 p); Gui.CellStr (canonical p);
   Gui.CellStr (meta_robots p); Gui.CellInt (status p)].

(** Two crawler records are equal when their lists and sets are, up to
    the unit and associativity laws. *)
Ltac same_crawler :=
  f_equal;
  rewrite ?app_nil_r, <- ?app_assoc; cbn [app];
  try done; try set_solver.


(** * Properties *)

Section PageAnalyzer.

Context `{Library}.

Lemma content_is_str tag : Bs4.cdata_list_attribute tag "content" = false.
Proof.
  unfold Bs4.cdata_list_attribute.
  apply orb_false_iff; split; apply bool_decide_eq_false;
    rewrite !elem_of_cons, elem_of_nil; intuition congruence.
Qed.

Lemma href_is_str tag : Bs4.cdata_list_attribute tag "href" = false.
Proof.
  unfold Bs4.cdata_list_attribute.
  apply orb_false_iff; split; apply bool_decide_eq_false;
    rewrite !elem_of_cons, elem_of_nil; intuition congruence.
Qed.

(** The guard [tag and tag.get(key)] is enough for [tag[key].strip()]
    whenever bs4 keeps the attribute as a string. *)
Lemma attr_or_empty_total soup name fs key :
  (forall tag, Bs4.cdata_list_attribute tag key = false) ->
  attr_or_empty (Bs4.find soup name fs) key
  = Ok (stripped_or_empty (first_attr soup name fs key)).
Proof.
  intros Hstr. unfold first_attr.
  destruct (Bs4.find soup name fs) as [n|]; cbn; [|done].
  unfold Bs4.getitem.
  destruct n as [s|s|nm attrs cs]; cbn; try done.
  rewrite Hstr. destruct (attrs !! key) as [v|] eqn:Hv; cbn; [|done].
  by destruct (v =? "") eqn:Hne; cbn.
Qed.

Lemma parse_title_total soup :
  parse_title soup
  = Ok (stripped_or_empty (Bs4.find soup "title" [] ≫= Bs4.string_)).
Proof.
  unfold parse_title. destruct (Bs4.find soup "title" []) as [n|]; cbn; [|done].
  destruct (Bs4.string_ n) as [s|]; cbn; [|done].
  by destruct (s =? ""); cbn.
Qed.

Lemma parse_h1_total soup :
  parse_h1 soup = Ok (from_option Bs4.get_text_strip "" (Bs4.find soup "h1" [])).
Proof. unfold parse_h1. by destruct (Bs4.find soup "h1" []). Qed.

(** On the tree the parser built, [parse_page] returns the analyzed
    record. *)
Lemma parse_page_parsed u st html soup :
  BeautifulSoup html = Ok soup -> parse_page u st html = Ok (analyzed u st soup).
Proof.
  intros Hs.
  unfold parse_page, parse_description, parse_canonical, parse_meta_robots.
  rewrite Hs. cbn.
  rewrite parse_title_total, parse_h1_total.
  rewrite !attr_or_empty_total by (apply content_is_str || apply href_is_str).
  done.
Qed.

Lemma parse_page_rejected u st html e :
  BeautifulSoup html = Raise e -> parse_page u st html = Raise e.
Proof. intros Hs. unfold parse_page. by rewrite Hs. Qed.

(** [parse_page] raises what the parser raises and nothing else. *)
Lemma parse_page_raise u st html e :
  parse_page u st html = Raise e -> BeautifulSoup html = Raise e.
Proof.
  destruct (BeautifulSoup html) as [soup|e'] eqn:Hs.
  - rewrite (parse_page_parsed u st html soup Hs). congruence.
  - rewrite (parse_page_rejected u st html e' Hs). congruence.
Qed.

Lemma parse_page_fields u st html page :
  parse_page u st html = Ok page ->
  url page = u /\ status page = st /\ error page = "".
Proof.
  destruct (BeautifulSoup html) as [soup|e'] eqn:Hs.
  - rewrite (parse_page_parsed u st html soup Hs). by intros [= <-].
  - rewrite (parse_page_rejected u st html e' Hs). congruence.
Qed.

(** C8. [parse_page] raises exactly when the HTML parser rejects the
    input, and then raises the parser's exception.  For every input the
    parser builds a tree for (malformed and partial HTML included),
    [parse_page] raises nothing and returns a record for the URL and
    status it was given, in which each of title, description, h1,
    canonical and meta_robots is read off the tree on its own: the
    stripped string of the first [title], the stripped [content] of the
    first [meta] named description or robots, the stripped [href] of the
    first canonical [link], the joined stripped strings of the first
    [h1]; a field whose element is absent is the empty string. *)
Theorem parse_page_raises_only_in_parser u st html :
  (forall e, BeautifulSoup html = Raise e -> parse_page u st html = Raise e)
  /\ (forall soup, BeautifulSoup html = Ok soup ->
      exists p,
        parse_page u st html = Ok p
        /\ p = analyzed u st soup
        /\ url p = u /\ status p = st /\ error p = ""
        /\ (Bs4.find soup "title" [] = None -> title p = "")
        /\ (Bs4.find soup "meta" [("name", Bs4.HasValue "description")] = None
            -> description p = "")
        /\ (Bs4.find soup "h1" [] = None -> h1 p = "")
        /\ (Bs4.find soup "link" [("rel", Bs4.HasValue "canonical")] = None
            -> canonical p = "")
        /\ (Bs4.find soup "meta" [("name", Bs4.HasValue "robots")] = None
            -> meta_robots p = "")).
Proof.
  split; [apply parse_page_rejected|].
  intros soup Hs. exists (analyzed u st soup).
  split; [by apply parse_page_parsed|].
  unfold analyzed, first_attr; cbn.
  split_and!; try done; by intros ->.
Qed.

End PageAnalyzer.

Section CrawlLoop.

Context `{Library}.

(** *** What an iteration does *)

Lemma allowed_same c c' u :
  config c' = config c -> parsed_base c' = parsed_base c ->
  robot_parser c' = robot_parser c -> allowed c' u = allowed c u.
Proof. unfold allowed, other_host, can_fetch. by intros -> -> ->. Qed.

Lemma keep_links_same c c' base hrefs :
  config c' = config c -> parsed_base c' = parsed_base c ->
  robot_parser c' = robot_parser c ->
  keep_links c' base hrefs = keep_links c base hrefs.
Proof.
  intros Hc Hp Hr. induction hrefs as [|h hrefs IH]; [done|].
  cbn. unfold keep_link. rewrite IH.
  destruct (urljoin base h) as [href|e]; cbn; [|done].
  by rewrite (allowed_same c c').
Qed.

Lemma extract_links_same c c' html base :
  config c' = config c -> parsed_base c' = parsed_base c ->
  robot_parser c' = robot_parser c ->
  extract_links c' html base = extract_links c html base.
Proof.
  intros Hc Hp Hr. unfold extract_links.
  destruct (BeautifulSoup html); cbn; [|done]. by apply keep_links_same.
Qed.

Lemma autosave_same c c' : results c' = results c -> autosave c' = autosave c.
Proof. unfold autosave. by intros ->. Qed.

Lemma put_links_grow links d c :
  let ls := List.filter (fun l => negb (bool_decide (l ∈ visited c))) links in
  put_links links d c
  = grow [] [] ∅ (to_visit c ++ map (fun l => (l, d)) ls)
         (map (fun l => EvPut l d) ls) c.
Proof.
  revert c. induction links as [|l links IH]; intros c; cbn.
  - destruct c; unfold grow; cbn. same_crawler.
  - unfold put_links in *. cbn. destruct (bool_decide (l ∈ visited c)) eqn:Hl; cbn.
    + apply IH.
    + rewrite IH. destruct c; unfold grow, put, emit, set_to_visit; cbn.
      same_crawler.
Qed.

(** An outcome is its state and the exception it carries. *)
Lemma outcome_eq r r' :
  state_of r = state_of r' -> raised r = raised r' -> r = r'.
Proof. destruct r, r'; cbn; congruence. Qed.

Lemma raised_none r : raised r = None -> r = Next (state_of r).
Proof. by destruct r. Qed.


(** The end of an answered iteration, from the test that follows the
    appending of the record. *)
Lemma follow_links_summary u d st text c :
  let ls := discovered c u d st text in
  (state_of (follow_links u d st text c)
   = grow [] [] ∅ (to_visit c ++ map (fun l => (l, d + 1)%Z) ls)
          (map (fun l => EvPut l (d + 1)) ls) c
   /\ raised (follow_links u d st text c) = None)
  \/ (state_of (follow_links u d st text c) = c
      /\ exists e, raised (follow_links u d st text c) = Some e
                   /\ extract_links c text u = Raise e).
Proof.
  cbn zeta. unfold follow_links, discovered.
  destruct ((st =? 200)%Z && (d <? max_depth (config c))%Z); cbn.
  - destruct (extract_links c text u) as [links|e]; cbn.
    + left. by rewrite put_links_grow.
    + right. eauto.
  - left. split; [|done]. destruct c; unfold grow; cbn. same_crawler.
Qed.

Lemma record_page_raise u d st text c e :
  parse_page u st text = Raise e -> record_page u d st text c = Abort e c.
Proof. intros Hp. unfold record_page. by rewrite Hp. Qed.

Lemma record_page_summary u d st text c page :
  parse_page u st text = Ok page ->
  let es := if (st =? 200)%Z then [] else [page] in
  exists auto ls,
    state_of (record_page u d st text c)
    = grow [page] es ∅ (to_visit c ++ map (fun l => (l, d + 1)%Z) ls)
           (progress_events c ++ auto ++ map (fun l => EvPut l (d + 1)) ls) c
    /\ ((autosave_interval (config c) = 0%Z /\ auto = [] /\ ls = []
         /\ raised (record_page u d st text c) = Some ZeroDivisionError)
        \/ (autosave_interval (config c) <> 0%Z
            /\ auto = autosave_events c page
            /\ ((ls = discovered c u d st text
                 /\ raised (record_page u d st text c) = None
                 /\ (auto = []
                     \/ autosave (results_append page c) = Ok tt))
                \/ (ls = []
                    /\ exists e,
                         raised (record_page u d st text c) = Some e
                         /\ (autosave (results_append page c) = Raise e
                             \/ extract_links c text u = Raise e))))).
Proof.
  intros Hp es. unfold record_page. rewrite Hp.
  set (c1 := if negb (st =? 200)%Z then errors_append page c else c).
  set (c2 := results_append page c1).
  set (c3 := if progress_callback (config c2)
             then emit (EvProgress (len_results c2) (max_pages (config c2))) c2
             else c2).
  assert (Hc3 : c3 = grow [page] es ∅ (to_visit c) (progress_events c) c).
  { subst c3 c2 c1 es. unfold progress_events, len_results.
    destruct c as [bu pb cfg rs es vis q rp tr].
    unfold errors_append, results_append, emit, grow. cbn.
    destruct (st =? 200)%Z; cbn; destruct (progress_callback cfg); cbn;
      rewrite ?length_app, ?Nat2Z.inj_add; cbn; same_crawler. }
  clearbody c3. subst c3. clear c1 c2.
  set (c3 := grow [page] es ∅ (to_visit c) (progress_events c) c).
  assert (Hlen : len_results c3 = (Z.of_nat (length (results c)) + 1)%Z).
  { unfold len_results, c3. cbn. rewrite length_app. cbn. lia. }
  change (config c3) with (config c). rewrite Hlen.
  destruct (autosave_interval (config c) =? 0)%Z eqn:Hz.
  { exists [], []. cbn. rewrite !app_nil_r. split; [done|].
    left. split; [lia|done]. }
  assert (Hex : forall c', config c' = config c -> parsed_base c' = parsed_base c
                -> robot_parser c' = robot_parser c -> visited c' = visited c
                -> discovered c' u d st text = discovered c u d st text).
  { intros c' E1 E2 E3 E4. unfold discovered.
    by rewrite E1, E4, (extract_links_same c c'). }
  assert (Hfollow : forall auto c4,
            c4 = grow [page] es ∅ (to_visit c) (progress_events c ++ auto) c ->
            auto = autosave_events c page ->
            (auto = [] \/ autosave (results_append page c) = Ok tt) ->
            exists auto' ls,
              state_of (follow_links u d st text c4)
              = grow [page] es ∅ (to_visit c ++ map (fun l => (l, d + 1)%Z) ls)
                  (progress_events c ++ auto'
                   ++ map (fun l => EvPut l (d + 1)) ls) c
              /\ (autosave_interval (config c) = 0%Z /\ auto' = [] /\ ls = []
                  /\ raised (follow_links u d st text c4)
                     = Some ZeroDivisionError
                  \/ autosave_interval (config c) <> 0%Z
                     /\ auto' = autosave_events c page
                     /\ (ls = discovered c u d st text
                         /\ raised (follow_links u d st text c4) = None
                         /\ (auto' = []
                             \/ autosave (results_append page c) = Ok tt)
                         \/ ls = []
                            /\ exists e,
                                 raised (follow_links u d st text c4) = Some e
                                 /\ (autosave (results_append page c) = Raise e
                                     \/ extract_links c text u = Raise e)))).
  { intros auto c4 -> -> Hsaved.
    set (c4 := grow _ _ _ _ _ _).
    destruct (follow_links_summary u d st text c4) as [[Hs Hr]|(Hs & e & Hr & He)].
    - exists (autosave_events c page), (discovered c u d st text).
      rewrite Hs, (Hex c4) by (try done; apply (left_id_L ∅ (∪))). split.
      + unfold c4, grow; cbn. same_crawler.
      + right. split; [lia|]. split; [done|]. by left.
    - exists (autosave_events c page), []. rewrite Hs. split.
      + unfold c4, grow; cbn. same_crawler.
      + right. split; [lia|]. split; [done|]. right. split; [done|].
        exists e. split; [done|]. right.
        by rewrite <- (extract_links_same c c4) by by destruct c. }
  destruct ((Z.of_nat (length (results c)) + 1) mod autosave_interval (config c)
            =? 0)%Z eqn:Hmod.
  - set (c4 := emit _ c3).
    assert (Hc4 : c4 = grow [page] es ∅ (to_visit c)
                         (progress_events c ++ autosave_events c page) c).
    { unfold c4, c3, autosave_events, emit, grow. rewrite Hmod. cbn.
      same_crawler. }
    assert (Hsame : autosave c4 = autosave (results_append page c)).
    { apply autosave_same. rewrite Hc4. by destruct c. }
    destruct (autosave c4) as [[]|e] eqn:Hauto.
    + apply (Hfollow (autosave_events c page)); [exact Hc4|done|by right].
    + exists (autosave_events c page), []. cbn [state_of raised]. split.
      * rewrite Hc4. unfold grow; cbn. same_crawler.
      * right. split; [lia|]. split; [done|]. right. split; [done|].
        exists e. split; [done|]. by left.
  - apply (Hfollow (autosave_events c page)); [|done|].
    + unfold c3, autosave_events, grow. rewrite Hmod. cbn. same_crawler.
    + left. unfold autosave_events. by rewrite Hmod.
Qed.

Lemma discovered_unvisited c u d st text :
  Forall (fun l => l ∉ visited c) (discovered c u d st text).
Proof.
  unfold discovered. destruct (_ && _); [|constructor].
  destruct (extract_links c text u) as [links|e]; [|constructor].
  apply List.Forall_forall. intros l [_ Hl]%filter_In.
  by apply negb_true_iff, bool_decide_eq_false in Hl.
Qed.

Lemma discovered_depth c u d st text :
  discovered c u d st text <> [] -> st = 200%Z /\ (d < max_depth (config c))%Z.
Proof.
  unfold discovered.
  destruct (st =? 200)%Z eqn:Hs; destruct (d <? max_depth (config c))%Z eqn:Hd;
    cbn; try done. intros _. split; lia.
Qed.

Lemma discovered_same c c' u d st text :
  config c' = config c -> parsed_base c' = parsed_base c ->
  robot_parser c' = robot_parser c -> visited c' = visited c ->
  discovered c' u d st text = discovered c u d st text.
Proof.
  intros E1 E2 E3 E4. unfold discovered.
  by rewrite E1, E4, (extract_links_same c c').
Qed.

(** The cases of an iteration that starts with [(u, d)] at the head of
    the queue: the entry is skipped, or [allowed] raises; the request
    raises; the parser rejects the answer; the answer is recorded. *)
Lemma loop_body_summary o c u d q :
  to_visit c = (u, d) :: q ->
  (state_of (loop_body o c) = grow [] [] ∅ q [] c
   /\ ((raised (loop_body o c) = None
        /\ (u ∈ visited c \/ (max_depth (config c) < d)%Z
            \/ allowed c u = Ok false))
       \/ ((u ∉ visited c) /\ (d <= max_depth (config c))%Z
           /\ exists e, allowed c u = Raise e
                        /\ raised (loop_body o c) = Some e)))
  \/ ((u ∉ visited c) /\ (d <= max_depth (config c))%Z
      /\ allowed c u = Ok true
      /\ match o with
         | FetchError msg =>
             loop_body o c
             = Next (grow [] [error_result u msg] {[u]} q [EvGet u d] c)
         | Response st text =>
             (exists e, parse_page u st text = Raise e
                        /\ loop_body o c
                           = Abort e (grow [] [] {[u]} q [EvGet u d] c))
             \/ exists page auto ls,
                  parse_page u st text = Ok page /\ url page = u
                  /\ status page = st
                  /\ state_of (loop_body o c)
                     = grow [page] (if (st =? 200)%Z then [] else [page]) {[u]}
                            (q ++ map (fun l => (l, d + 1)%Z) ls)
                            (EvGet u d :: progress_events c ++ auto
                             ++ map (fun l => EvPut l (d + 1)) ls) c
                  /\ ends_with c u d st text page auto ls
                               (raised (loop_body o c))
         end).
Proof.
  intros Hq. unfold loop_body. rewrite Hq.
  assert (Hset : set_to_visit q c = grow [] [] ∅ q [] c).
  { destruct c; unfold set_to_visit, grow; cbn. same_crawler. }
  replace (visited (set_to_visit q c)) with (visited c) by by destruct c.
  replace (config (set_to_visit q c)) with (config c) by by destruct c.
  replace (allowed (set_to_visit q c) u) with (allowed c u)
    by by destruct c.
  destruct (bool_decide (u ∈ visited c)) eqn:Hv; cbn.
  { left. split; [by rewrite Hset|]. left. split; [done|].
    left. by apply bool_decide_eq_true in Hv. }
  apply bool_decide_eq_false in Hv.
  destruct (max_depth (config c) <? d)%Z eqn:Hd; cbn.
  { left. split; [by rewrite Hset|]. left. split; [done|]. right; left. lia. }
  destruct (allowed c u) as [[|]|e] eqn:Ha; cbn.
  2:{ left. split; [by rewrite Hset|]. left. split; [done|]. by right; right. }
  2:{ left. split; [by rewrite Hset|]. right. split_and!; [done|lia|]. eauto. }
  right. split_and!; [done|lia|done|].
  set (c' := visit u d (set_to_visit q c)).
  assert (Hc' : c' = grow [] [] {[u]} q [EvGet u d] c).
  { destruct c; unfold c', visit, set_to_visit, emit, grow; cbn. same_crawler. }
  destruct o as [st text|msg].
  - destruct (parse_page u st text) as [page|e] eqn:Hp.
    + right.
      destruct (parse_page_fields u st text page Hp) as (Hpu & Hps & _).
      destruct (record_page_summary u d st text c' page Hp)
        as (auto & ls & Hst & Hend).
      exists page, auto, ls. split_and!; try done.
      * rewrite Hst, Hc'. unfold grow, progress_events; cbn. same_crawler.
      * assert (Hauto : autosave_events c' page = autosave_events c page)
          by by destruct c.
        assert (Hdisc : discovered c' u d st text
                        = discovered (visit u d c) u d st text).
        { apply discovered_same; by destruct c. }
        assert (Hsave : autosave (results_append page c')
                        = autosave (results_append page c)).
        { apply autosave_same. by destruct c. }
        assert (Hext : extract_links c' text u = extract_links c text u).
        { apply extract_links_same; by destruct c. }
        rewrite Hauto, Hdisc, Hsave, Hext in Hend.
        replace (config c') with (config c) in Hend by by destruct c.
        exact Hend.
    + left. exists e. split; [done|].
      by rewrite (record_page_raise u d st text c' e Hp), Hc'.
  - fold c'. rewrite Hc'. unfold errors_append, grow; cbn.
    f_equal; same_crawler.
Qed.

(** *** Traces *)

Lemma fetched_app tr evs : fetched (tr ++ evs) = (fetched tr ++ fetched evs)%list.
Proof. apply omap_app. Qed.

Lemma quiet_fetched vis evs : quiet vis evs -> fetched evs = [].
Proof.
  induction 1 as [|e evs He _ IH]; [done|].
  destruct e; cbn in *; done.
Qed.

Lemma quiet_gets_within vis bound evs : quiet vis evs -> gets_within bound evs.
Proof. intros Hq. eapply Forall_impl; [exact Hq|]. by intros []. Qed.

Lemma quiet_no_requeue vis seen evs :
  quiet vis evs -> seen ⊆ vis -> no_requeue seen evs.
Proof.
  intros Hq Hsub. induction Hq as [|e evs He _ IH]; [done|].
  destruct e; cbn in *; try done. split; [set_solver|done].
Qed.

Lemma quiet_app vis evs1 evs2 :
  quiet vis evs1 -> quiet vis evs2 -> quiet vis (evs1 ++ evs2).
Proof. intros. by apply Forall_app. Qed.

Lemma quiet_progress vis c : quiet vis (progress_events c).
Proof. unfold progress_events. destruct (progress_callback _); by repeat constructor. Qed.

Lemma quiet_autosave vis c page : quiet vis (autosave_events c page).
Proof. unfold autosave_events. destruct (_ =? _)%Z; by repeat constructor. Qed.

Lemma quiet_puts vis d ls :
  Forall (fun l => l ∉ vis) ls -> quiet vis (map (fun l => EvPut l d) ls).
Proof. intros Hls. apply Forall_map. eapply Forall_impl; [exact Hls|]. done. Qed.

Lemma no_requeue_app seen tr evs :
  no_requeue seen (tr ++ evs)
  <-> no_requeue seen tr /\ no_requeue (list_to_set (fetched tr) ∪ seen) evs.
Proof.
  revert seen. induction tr as [|e tr IH]; intros seen; cbn.
  - rewrite (left_id_L ∅ (∪)). tauto.
  - destruct e; cbn; rewrite IH; try tauto.
    replace (list_to_set (fetched tr) ∪ ({[u]} ∪ seen))
      with ({[u]} ∪ list_to_set (fetched tr) ∪ seen) by set_solver.
    tauto.
Qed.

(** The links an answered iteration queues are not visited, and the
    call it makes to [autosave] is the one its count asks for or
    none. *)
Lemma ends_with_links c u d st text page auto ls r :
  ends_with c u d st text page auto ls r ->
  (ls = [] \/ ls = discovered (visit u d c) u d st text)
  /\ (auto = [] \/ auto = autosave_events c page).
Proof.
  intros [(_ & -> & -> & _)|(_ & -> & [[-> _]|[-> _]])]; auto.
Qed.

Lemma ends_with_quiet c u d st text page auto ls r :
  ends_with c u d st text page auto ls r ->
  quiet ({[u]} ∪ visited c)
        (progress_events c ++ auto ++ map (fun l => EvPut l (d + 1)) ls).
Proof.
  intros [Hls Hauto]%ends_with_links.
  apply quiet_app; [apply quiet_progress|].
  apply quiet_app.
  { destruct Hauto as [->| ->]; [constructor|apply quiet_autosave]. }
  apply quiet_puts. destruct Hls as [->| ->]; [constructor|].
  pose proof (discovered_unvisited (visit u d c) u d st text) as Hd.
  by destruct c.
Qed.

(** *** The visit invariant *)

Lemma fresh_visits_ok c : fresh c -> visits_ok c.
Proof.
  intros [Hr _ Hv Ht].
  assert (Hf : fetched (trace c) = []).
  { induction Ht as [|e tr (u & d & ->) _ IH]; done. }
  split.
  - intros u. rewrite Hv, Hf. set_solver.
  - rewrite Hf. constructor.
  - rewrite Hr. apply sublist_nil_l.
  - induction Ht as [|e tr (u & d & ->) _ IH]; [done|].
    cbn. split; [set_solver|]. apply IH. by cbn in Hf.
  - eapply Forall_impl; [exact Ht|]. by intros e (u & d & ->).
Qed.

Lemma visits_ok_skip c q : visits_ok c -> visits_ok (grow [] [] ∅ q [] c).
Proof.
  intros [H1 H2 H3 H4 H5]. unfold grow.
  split; cbn; rewrite ?app_nil_r; try done.
  intros u. rewrite <- H1. set_solver.
Qed.

Lemma visits_ok_get c u d rs es q evs :
  visits_ok c -> u ∉ visited c -> (d <= max_depth (config c))%Z ->
  quiet ({[u]} ∪ visited c) evs ->
  (rs = [] \/ exists p, rs = [p] /\ url p = u) ->
  visits_ok (grow rs es {[u]} q (EvGet u d :: evs) c).
Proof.
  intros [H1 H2 H3 H4 H5] Hu Hd Hq Hrs. unfold grow.
  assert (Hf : fetched (trace c ++ EvGet u d :: evs) = (fetched (trace c) ++ [u])%list).
  { rewrite fetched_app. change (fetched (EvGet u d :: evs)) with (u :: fetched evs).
    by rewrite (quiet_fetched _ _ Hq). }
  split; cbn -[fetched]; rewrite ?Hf.
  - intros u'. rewrite elem_of_app, elem_of_union, <- H1. set_solver.
  - apply NoDup_app. split_and!; [done| |apply NoDup_singleton].
    intros u' Hin ->%list_elem_of_singleton. by apply Hu, H1.
  - rewrite map_app. apply sublist_app; [done|].
    destruct Hrs as [->|(p & -> & <-)]; cbn; [apply sublist_nil_l|done].
  - apply no_requeue_app. split; [done|]. cbn.
    eapply quiet_no_requeue; [exact Hq|].
    intros u'. rewrite !elem_of_union, elem_of_list_to_set, <- H1. set_solver.
  - apply Forall_app. split; [done|]. constructor; [done|].
    by eapply quiet_gets_within.
Qed.

Lemma loop_body_visits_ok o c :
  visits_ok c -> visits_ok (state_of (loop_body o c)).
Proof.
  intros Hc. destruct (to_visit c) as [|[u d] q] eqn:Hq.
  { unfold loop_body. by rewrite Hq. }
  destruct (loop_body_summary o c u d q Hq)
    as [[-> _]|(Hu & Hd & _ & Hcase)].
  { by apply visits_ok_skip. }
  destruct o as [st text|msg].
  - destruct Hcase as [(e & _ & ->)
                      |(page & auto & ls & _ & Hpu & _ & -> & Hend)].
    + cbn. apply visits_ok_get; eauto. constructor.
    + apply visits_ok_get; eauto using ends_with_quiet.
  - rewrite Hcase. cbn. apply visits_ok_get; eauto. constructor.
Qed.

Lemma reaches_visits_ok c0 r :
  visits_ok c0 -> reaches c0 r -> visits_ok (state_of r).
Proof.
  intros H0. induction 1 as [|c o _ IH _]; [done|].
  by apply loop_body_visits_ok.
Qed.

(** *** The start of a crawl *)

Lemma init_fields base cfg c :
  init base cfg = Ok c ->
  base_url c = Str.rstrip "/" base /\ config c = cfg
  /\ hostname (Str.rstrip "/" base) = Ok (parsed_base c)
  /\ results c = [] /\ errors c = [] /\ visited c = ∅ /\ to_visit c = []
  /\ robot_parser c = Robots.new /\ trace c = [].
Proof.
  unfold init. destruct (hostname (Str.rstrip "/" base)) as [h|e]; cbn; [|done].
  intros [= <-]. by cbn.
Qed.

Lemma fresh_init base cfg c : init base cfg = Ok c -> fresh c.
Proof.
  intros (_ & _ & _ & Hr & He & Hv & _ & _ & Ht)%init_fields.
  split; try done. rewrite Ht. constructor.
Qed.

Lemma fresh_put u d c : fresh c -> fresh (put u d c).
Proof.
  intros [H1 H2 H3 H4]. split; cbn; try done.
  apply Forall_app. split; [done|]. repeat constructor. eauto.
Qed.

Lemma fresh_put_locs locs c : fresh c -> fresh (put_locs locs c).
Proof.
  revert c. induction locs as [|[t|] locs IH]; intros c Hc; cbn; try done.
  by apply IH, fresh_put.
Qed.

(** [load_robots] only replaces the rules. *)
Lemma load_robots_sets rr c :
  exists p, load_robots rr c = set_robot_parser p c.
Proof.
  unfold load_robots, load_robots_try.
  destruct rr as [|st [lines|]]; try destruct (st =? 200)%Z;
    try destruct (robots_parse lines (robot_parser c)); eauto.
Qed.

Lemma fresh_load_robots rr c : fresh c -> fresh (load_robots rr c).
Proof.
  intros [H1 H2 H3 H4]. destruct (load_robots_sets rr c) as [p ->]. by split.
Qed.

Lemma fresh_initialize rr sr c : fresh c -> fresh (initialize rr sr c).
Proof.
  intros Hc. unfold initialize. apply fresh_put.
  unfold load_sitemap.
  destruct sr as [|st [locs|]]; try destruct (st =? 200)%Z;
    auto using fresh_load_robots, fresh_put_locs.
Qed.

Lemma config_put_locs locs c : config (put_locs locs c) = config c.
Proof.
  revert c. induction locs as [|[t|] locs IH]; intros c; cbn; try done.
  by rewrite IH.
Qed.

Lemma config_initialize rr sr c : config (initialize rr sr c) = config c.
Proof.
  unfold initialize, load_sitemap.
  destruct (load_robots_sets rr c) as [p ->].
  destruct sr as [|st [locs|]]; try destruct (st =? 200)%Z;
    cbn; by rewrite ?config_put_locs.
Qed.

(** *** Further invariants of the loop *)

Lemma loop_body_config o c : config (state_of (loop_body o c)) = config c.
Proof.
  destruct (to_visit c) as [|[u d] q] eqn:Hq.
  { unfold loop_body. by rewrite Hq. }
  destruct (loop_body_summary o c u d q Hq) as [[-> _]|(_ & _ & _ & Hcase)];
    [done|].
  destruct o as [st text|msg]; [|by rewrite Hcase].
  by destruct Hcase as [(e & _ & ->)|(page & auto & ls & _ & _ & _ & -> & _)].
Qed.

Lemma reaches_config c0 r : reaches c0 r -> config (state_of r) = config c0.
Proof.
  induction 1 as [|c o _ IH _]; [done|]. by rewrite loop_body_config.
Qed.

(** An iteration appends at most one result. *)
Lemma loop_body_results o c :
  results (state_of (loop_body o c)) = results c
  \/ exists page, results (state_of (loop_body o c)) = (results c ++ [page])%list.
Proof.
  destruct (to_visit c) as [|[u d] q] eqn:Hq.
  { unfold loop_body. rewrite Hq. by left. }
  destruct (loop_body_summary o c u d q Hq) as [[-> _]|(_ & _ & _ & Hcase)].
  { left. cbn. apply app_nil_r. }
  destruct o as [st text|msg].
  - destruct Hcase as [(e & _ & ->)|(page & auto & ls & _ & _ & _ & -> & _)].
    + left. cbn. apply app_nil_r.
    + right. by exists page.
  - rewrite Hcase. left. cbn. apply app_nil_r.
Qed.

Lemma reaches_cap c0 r :
  (len_results c0 <= max_pages (config c0))%Z ->
  reaches c0 r ->
  (len_results (state_of r) <= max_pages (config c0))%Z.
Proof.
  intros H0. induction 1 as [|c o Hc IH Hcond]; [done|].
  apply reaches_config in Hc. cbn in *.
  apply andb_true_iff in Hcond as [_ Hlt]. rewrite Hc in Hlt.
  unfold len_results in *.
  destruct (loop_body_results o c) as [->|(page & ->)]; [done|].
  rewrite length_app. cbn. lia.
Qed.

Lemma loop_body_errors_ok o c :
  errors_ok c -> errors_ok (state_of (loop_body o c)).
Proof.
  intros Hc. destruct (to_visit c) as [|[u d] q] eqn:Hq.
  { unfold loop_body. by rewrite Hq. }
  assert (Hgrow : forall rs es vis q' evs,
    (forall p, p ∈ es -> p ∈ rs \/ exists u msg, p = error_result u msg) ->
    errors_ok (grow rs es vis q' evs c)).
  { intros rs es vis q' evs Hes p. cbn. rewrite !elem_of_app.
    intros [Hp|Hp]; [destruct (Hc p Hp); eauto|destruct (Hes p Hp); eauto]. }
  destruct (loop_body_summary o c u d q Hq) as [[-> _]|(_ & _ & _ & Hcase)].
  { apply Hgrow. by intros p ?%elem_of_nil. }
  destruct o as [st text|msg].
  - destruct Hcase as [(e & _ & ->)|(page & auto & ls & _ & _ & _ & -> & _)].
    + cbn. apply Hgrow. by intros p ?%elem_of_nil.
    + apply Hgrow; destruct (st =? 200)%Z;
        intros p Hp; by (apply elem_of_nil in Hp || left).
  - rewrite Hcase. cbn. apply Hgrow.
    intros p ->%list_elem_of_singleton. right. eauto.
Qed.

Lemma reaches_errors_ok c0 r :
  errors_ok c0 -> reaches c0 r -> errors_ok (state_of r).
Proof.
  intros H0. induction 1 as [|c o _ IH _]; [done|].
  by apply loop_body_errors_ok.
Qed.

(** The queue after an iteration: the entry at the head is gone and
    the links put behind the rest are one level deeper than it. *)
Lemma loop_body_queue o c u d q :
  to_visit c = (u, d) :: q ->
  exists ls,
    to_visit (state_of (loop_body o c)) = (q ++ map (fun l => (l, d + 1)%Z) ls)%list
    /\ (ls <> [] -> (d < max_depth (config c))%Z
                    /\ exists text, o = Response 200 text)
    /\ Forall (fun l => l ∉ visited (state_of (loop_body o c))) ls.
Proof.
  intros Hq.
  destruct (loop_body_summary o c u d q Hq) as [[-> _]|(_ & _ & _ & Hcase)].
  { exists []. cbn. by rewrite app_nil_r. }
  destruct o as [st text|msg].
  - destruct Hcase as [(e & _ & ->)|(page & auto & ls & _ & _ & _ & -> & Hend)].
    { exists []. cbn. by rewrite app_nil_r. }
    exists ls. split; [done|].
    destruct (ends_with_links _ _ _ _ _ _ _ _ _ Hend) as [[->| ->] _].
    { split; [done|constructor]. }
    split.
    + intros [-> Hd]%discovered_depth. split; [by destruct c|eauto].
    + pose proof (discovered_unvisited (visit u d c) u d st text) as Hd.
      by destruct c.
  - rewrite Hcase. exists []. cbn. by rewrite app_nil_r.
Qed.

Lemma reaches_queue_within c0 r :
  queue_within (max_depth (config c0)) (to_visit c0) ->
  reaches c0 r ->
  queue_within (max_depth (config c0)) (to_visit (state_of r)).
Proof.
  intros H0. induction 1 as [|c o Hc IH _]; [done|].
  apply reaches_config in Hc. cbn in *.
  destruct (to_visit c) as [|[u d] q] eqn:Hq.
  { unfold loop_body. rewrite Hq. cbn. rewrite Hq. constructor. }
  destruct (loop_body_queue o c u d q Hq) as (ls & -> & Hls & _).
  apply Forall_app. split; [by inversion IH|].
  apply Forall_map, Forall_forall. intros l Hl. cbn. right.
  destruct Hls as [Hd _]; [by intros ->; apply elem_of_nil in Hl|].
  rewrite Hc in Hd. lia.
Qed.

End CrawlLoop.

(** ** The page analyzer's links *)

Section Links.

Context `{Library}.

(** [find_all('a', href=True)] finds the anchors that carry an [href],
    in document order. *)
Lemma anchor_hrefs_document soup : anchor_hrefs soup = document_hrefs soup.
Proof.
  unfold anchor_hrefs, document_hrefs, Bs4.find_all.
  induction (Bs4.descendants soup) as [|n l IH]; [done|].
  cbn [List.filter omap list_omap].
  destruct n as [t|t|nm attrs cs]; cbn; try done.
  rewrite href_is_str.
  destruct (nm =? "a"); cbn; [|done].
  destruct (attrs !! "href") as [v|] eqn:Hv; cbn; [|done].
  by rewrite Hv, IH.
Qed.

(** The loop of [extract_links] returns when every [urljoin] and every
    call of [allowed] it makes returns, and then keeps the resolved URLs
    that start with [http] and that [allowed] admits. *)
Lemma keep_links_ok c base hrefs ls :
  keep_links c base hrefs = Ok ls
  <-> exists resolved,
        Forall2 (fun h l => urljoin base h = Ok l) hrefs resolved
        /\ Forall (fun l => Str.startswith l "http" = true ->
                            exists b, allowed c l = Ok b) resolved
        /\ ls = List.filter (fun l => Str.startswith l "http" && admits c l)
                            resolved.
Proof.
  revert ls. induction hrefs as [|h hrefs IH]; intros ls.
  { cbn. split.
    - intros [= <-]. exists []. by repeat constructor.
    - intros (resolved & ->%Forall2_nil_inv_l & _ & ->). done. }
  cbn. unfold keep_link, admits. split.
  - destruct (urljoin base h) as [href|e] eqn:Hj; cbn; [|done].
    destruct (Str.startswith href "http") eqn:Hp; cbn.
    + destruct (allowed c href) as [b|e] eqn:Ha; cbn; [|done].
      destruct (keep_links c base hrefs) as [links|e] eqn:Hk; cbn; [|done].
      intros [= <-].
      destruct (proj1 (IH links) eq_refl) as (resolved & H1 & H2 & ->).
      exists (href :: resolved). split_and!.
      * by constructor.
      * constructor; [eauto|done].
      * cbn. rewrite Hp, Ha. by destruct b.
    + destruct (keep_links c base hrefs) as [links|e] eqn:Hk; cbn; [|done].
      intros [= <-].
      destruct (proj1 (IH links) eq_refl) as (resolved & H1 & H2 & ->).
      exists (href :: resolved). split_and!.
      * by constructor.
      * constructor; [by rewrite Hp|done].
      * cbn. by rewrite Hp.
  - intros (resolved & Hres & Hal & ->).
    apply Forall2_cons_inv_l in Hres as (href & resolved' & Hj & Hres & ->).
    apply Forall_cons in Hal as [Ha Hal].
    rewrite Hj. cbn.
    rewrite (proj2 (IH _) (ex_intro _ resolved' (conj Hres (conj Hal eq_refl)))).
    destruct (Str.startswith href "http") eqn:Hp; cbn; [|done].
    destruct (Ha eq_refl) as [b ->]. cbn. by destruct b.
Qed.

(** X17. When [extract_links] returns, the HTML parser built a tree,
    [urljoin] resolved the [href] of every anchor of the tree against the
    base URL, and the result holds, in document order and with their
    repetitions, exactly the resolved URLs whose text starts with [http]
    and that [allowed] admits.  It returns whenever the parser, every
    [urljoin] and every call of [allowed] on a URL that starts with
    [http] return. *)
Theorem extract_links_keeps_http_prefixed c html base ls :
  extract_links c html base = Ok ls
  <-> exists soup resolved,
        BeautifulSoup html = Ok soup
        /\ Forall2 (fun h l => urljoin base h = Ok l)
                   (document_hrefs soup) resolved
        /\ Forall (fun l => Str.startswith l "http" = true ->
                            exists b, allowed c l = Ok b) resolved
        /\ ls = List.filter (fun l => Str.startswith l "http" && admits c l)
                            resolved.
Proof.
  unfold extract_links.
  destruct (BeautifulSoup html) as [soup|e]; cbn.
  - rewrite anchor_hrefs_document, keep_links_ok. split.
    + intros (resolved & ?). by exists soup, resolved.
    + intros (soup' & resolved & [= <-] & ?). by exists resolved.
  - split; [done|]. by intros (? & ? & ? & _).
Qed.

(** The links [extract_links] returns start with [http] and are
    admitted by [allowed]. *)
Lemma extract_links_http c html base ls :
  extract_links c html base = Ok ls ->
  Forall (fun l => Str.startswith l "http" = true /\ allowed c l = Ok true) ls.
Proof.
  unfold extract_links.
  destruct (BeautifulSoup html) as [soup|e]; cbn; [|done].
  intros (resolved & _ & _ & ->)%keep_links_ok.
  apply List.Forall_forall. intros l [_ Hl]%filter_In.
  apply andb_true_iff in Hl as [Hp Ha]. split; [done|].
  unfold admits in Ha. by destruct (allowed c l) as [[|]|].
Qed.

End Links.

(** C6. [extract_links] does not keep only the URLs with an HTTP or
    HTTPS scheme: on the page of [Site], whose second link is
    [httpx://example.com/], that link is returned, its text starting
    with [http], although its scheme is neither http nor https. *)
Theorem httpx_link_is_extracted :
  @extract_links Site.lib Site.at_home Site.home_html "https://example.com"
  = Ok ["https://example.com/about"; "httpx://example.com/"]
  /\ Urllib.scheme "httpx://example.com/" = "httpx"
  /\ "httpx" <> "http" /\ "httpx" <> "https".
Proof. split_and!; [by vm_compute|by vm_compute|done|done]. Qed.

(** ** The politeness controller *)

Section Politeness.

Context `{Library}.






Lemma allowed_in_scope c u :
  in_scope c u -> allowed c u = can_fetch c u.
Proof.
  unfold allowed, other_host, in_scope.
  destruct (include_subdomains (config c)); cbn; [done|].
  intros [?|[-> |[-> | ->]]]; cbn; try done.
  destruct (parsed_base c) as [h|]; cbn; [|done].
  by rewrite bool_decide_eq_true_2, andb_false_r.
Qed.


(** C9. A URL whose hostname is empty or absent is not held to the
    host of the base URL, even with [include_subdomains] off: [allowed]
    answers what the robots rules answer, and when they allow it the
    crawl loop requests it. *)
Theorem hostless_url_skips_scope_check c u :
  hostname u = Ok None \/ hostname u = Ok (Some "") ->
  allowed c u = can_fetch c u
  /\ (forall o d q,
        to_visit c = (u, d) :: q -> u ∉ visited c ->
        (d <= max_depth (config c))%Z -> can_fetch c u = Ok true ->
        u ∈ visited (state_of (loop_body o c))
        /\ exists rest,
             trace (state_of (loop_body o c))
             = (trace c ++ EvGet u d :: rest)%list).
Proof.
  intros Hh.
  assert (Ha : allowed c u = can_fetch c u).
  { apply allowed_in_scope. unfold in_scope. tauto. }
  split; [done|]. intros o d q Hq Hu Hd Hcf.
  destruct (loop_body_summary o c u d q Hq)
    as [[_ [[_ [?|[?|Hna]]]|(_ & _ & e & He & _)]]|(_ & _ & _ & Hcase)];
    try done; try lia; try congruence.
  destruct o as [st text|msg].
  - destruct Hcase as [(e & _ & ->)|(page & auto & ls & _ & _ & _ & -> & _)];
      cbn; (split; [set_solver|eauto]).
  - rewrite Hcase. cbn. split; [set_solver|eauto].
Qed.

End Politeness.

(** ** The crawl session *)

Section Session.

Context `{Library}.

Lemma start_fresh base cfg rr sr c0 :
  init base cfg = Ok c0 -> fresh (initialize rr sr c0).
Proof. intros Hinit. eapply fresh_initialize, fresh_init, Hinit. Qed.

Lemma start_config base cfg rr sr c0 :
  init base cfg = Ok c0 -> config (initialize rr sr c0) = cfg.
Proof.
  intros (_ & Hcfg & _)%init_fields. by rewrite config_initialize.
Qed.

(** The loop ends: every iteration either raises, or appends a result,
    which the page cap allows only so often, or shortens the queue. *)
Lemma crawl_loop_terminates net c i :
  exists fuel r, crawl_loop fuel net i c = Some r.
Proof.
  remember (Z.to_nat (max_pages (config c) - len_results c)) as n eqn:Hn.
  remember (length (to_visit c)) as m eqn:Hm.
  revert m c i Hn Hm.
  induction n as [n IHn] using lt_wf_ind.
  induction m as [m IHm] using lt_wf_ind. intros c i Hn Hm.
  destruct (loop_cond c) eqn:Hcond.
  2:{ exists 0%nat, (Next c). cbn. by rewrite Hcond. }
  pose proof Hcond as Hcond'.
  apply andb_true_iff in Hcond' as [Hne Hlt].
  destruct (to_visit c) as [|[u d] q] eqn:Hq; [done|].
  destruct (loop_body (net i) c) as [c'|e c'] eqn:Hbody.
  2:{ exists 1%nat, (Abort e c'). cbn. by rewrite Hcond, Hbody. }
  enough (Hrest : exists fuel r, crawl_loop fuel net (S i) c' = Some r).
  { destruct Hrest as (fuel & r & Hloop). exists (S fuel), r. cbn.
    by rewrite Hcond, Hbody. }
  assert (Hshort : forall rs es vis evs,
            rs = [] -> c' = grow rs es vis q evs c ->
            exists fuel r, crawl_loop fuel net (S i) c' = Some r).
  { intros rs es vis evs -> ->. eapply (IHm (length q)).
    - subst m. cbn. lia.
    - subst n. unfold len_results. cbn. by rewrite app_nil_r.
    - done. }
  pose proof (loop_body_summary (net i) c u d q Hq) as Hsum.
  rewrite Hbody in Hsum. cbn [state_of raised] in Hsum.
  destruct Hsum as [[Hst _]|(_ & _ & _ & Hcase)].
  { by eapply Hshort. }
  destruct (net i) as [st text|msg] eqn:Hnet.
  - destruct Hcase as [(e & _ & [=])|(page & auto & ls & _ & _ & _ & Hst & _)].
    eapply (IHn (Z.to_nat (max_pages (config c) - len_results c - 1))).
    + subst n. lia.
    + rewrite Hst. unfold len_results. cbn. rewrite length_app. cbn.
      f_equal. lia.
    + done.
  - injection Hcase as ->. by eapply Hshort.
Qed.

Lemma crawl_loop_reaches c0 fuel net i c r :
  reaches c0 (Next c) -> crawl_loop fuel net i c = Some r -> reaches c0 r.
Proof.
  revert i c. induction fuel as [|fuel IH]; intros i c Hc; cbn;
    destruct (loop_cond c) eqn:Hcond; try done; try by intros [= <-].
  pose proof (reaches_iter c0 c (net i) Hc Hcond) as Hstep.
  destruct (loop_body (net i) c) as [c'|e c'] eqn:Hbody.
  - by apply IH.
  - by intros [= <-].
Qed.

(** An iteration that raises: a library call raised, or the autosave
    interval is 0 and the record of the page was just appended. *)
Lemma loop_body_abort o c u d q e c' :
  to_visit c = (u, d) :: q ->
  loop_body o c = Abort e c' ->
  library_raised c u o e
  \/ (autosave_interval (config c) = 0%Z /\ e = ZeroDivisionError
      /\ exists st text page,
           o = Response st text /\ parse_page u st text = Ok page
           /\ results c' = (results c ++ [page])%list).
Proof.
  intros Hq Hbody.
  pose proof (loop_body_summary o c u d q Hq) as Hsum.
  rewrite Hbody in Hsum. cbn [state_of raised] in Hsum.
  destruct Hsum as [[_ [[[=] _]|(_ & _ & e' & Ha & [= ->])]]
                   |(_ & _ & _ & Hcase)].
  { left. by left. }
  destruct o as [st text|msg]; [|done].
  destruct Hcase as [(e' & Hp & [= -> _])
                    |(page & auto & ls & Hp & _ & _ & Hst & Hend)].
  { left. right. exists st, text. split; [done|]. by left. }
  destruct Hend as [(Hz & _ & _ & [= ->])
                   |(_ & _ & [(_ & [=] & _)|(_ & e' & [= ->] & Hlib)])].
  - right. split_and!; try done. exists st, text, page.
    split_and!; try done. by rewrite Hst.
  - left. right. exists st, text. split; [done|]. right. by exists page.
Qed.

(** C1, as the code has it. When the request for a URL raises, a record
    with status 0, the message and every other field empty is appended to
    [errors] only: [results] is unchanged, the queue only loses its head
    and nothing but the request is emitted, so no link is extracted.
    Throughout a crawl every entry of [errors] is either such a record
    or also an entry of [results]. *)
Theorem fetch_error_goes_to_errors_only base cfg rr sr c0 r :
  init base cfg = Ok c0 ->
  reaches (initialize rr sr c0) r ->
  (forall p, p ∈ errors (state_of r) ->
     p ∈ results (state_of r)
     \/ exists u msg,
          p = {| url := u; title := ""; description := ""; h1 := "";
                 canonical := ""; meta_robots := ""; status := 0;
                 error := msg |})
  /\ (forall c u d q msg,
        r = Next c -> to_visit c = (u, d) :: q -> u ∉ visited c ->
        (d <= max_depth (config c))%Z -> allowed c u = Ok true ->
        exists c',
          loop_body (FetchError msg) c = Next c'
          /\ errors c'
             = (errors c
                ++ [{| url := u; title := ""; description := ""; h1 := "";
                       canonical := ""; meta_robots := ""; status := 0;
                       error := msg |}])%list
          /\ results c' = results c
          /\ to_visit c' = q
          /\ trace c' = (trace c ++ [EvGet u d])%list).
Proof.
  intros Hinit Hr. split.
  - apply (reaches_errors_ok _ _) in Hr; [exact Hr|].
    intros p. rewrite (fresh_errors _ (start_fresh base cfg rr sr c0 Hinit)).
    by intros ?%elem_of_nil.
  - intros c u d q msg _ Hq Hu Hd Ha.
    destruct (loop_body_summary (FetchError msg) c u d q Hq)
      as [[_ [[_ [?|[?|?]]]|(_ & _ & e & ? & _)]]|(_ & _ & _ & ->)];
      try done; try lia; try congruence.
    eexists. split; [done|]. cbn. by rewrite app_nil_r.
Qed.

(** C2, as the code has it. With an observer registered, an iteration
    whose request is answered (whatever the status) and whose body the
    HTML parser accepts appends the record and calls the observer once,
    right after the request, with the new [len(results)] and
    [max_pages].  When the parser rejects the body its exception leaves
    the loop: nothing is recorded and the observer is not called.  An
    iteration whose request raises records nothing in [results] and does
    not call the observer either. *)
Theorem progress_reported_after_answer c u d q :
  progress_callback (config c) = true ->
  to_visit c = (u, d) :: q -> u ∉ visited c ->
  (d <= max_depth (config c))%Z -> allowed c u = Ok true ->
  (forall st text page,
     parse_page u st text = Ok page ->
     let c' := state_of (loop_body (Response st text) c) in
     results c' = (results c ++ [page])%list
     /\ len_results c' = (len_results c + 1)%Z
     /\ exists rest,
          trace c' = (trace c ++ EvGet u d
                      :: EvProgress (len_results c') (max_pages (config c))
                      :: rest)%list
          /\ forall n m, EvProgress n m ∉ rest)
  /\ (forall st text e,
        parse_page u st text = Raise e ->
        exists c',
          loop_body (Response st text) c = Abort e c'
          /\ results c' = results c /\ errors c' = errors c
          /\ trace c' = (trace c ++ [EvGet u d])%list)
  /\ (forall msg,
        results (state_of (loop_body (FetchError msg) c)) = results c
        /\ trace (state_of (loop_body (FetchError msg) c))
           = (trace c ++ [EvGet u d])%list).
Proof.
  intros Hpc Hq Hu Hd Ha. split_and!.
  - intros st text page Hp.
    destruct (loop_body_summary (Response st text) c u d q Hq)
      as [[_ [[_ [?|[?|?]]]|(_ & _ & e & ? & _)]]|(_ & _ & _ & Hcase)];
      try done; try lia; try congruence.
    destruct Hcase as [(e & Hp' & _)
                      |(page' & auto & ls & Hp' & _ & _ & Hst & Hend)];
      [congruence|].
    assert (page' = page) as -> by congruence.
    cbn zeta. rewrite Hst. unfold progress_events, len_results.
    rewrite Hpc. cbn. rewrite length_app, Nat2Z.inj_add. cbn.
    split_and!; try done. eexists. split; [done|]. intros n m.
    rewrite elem_of_app, list_elem_of_fmap.
    intros [Hin|(l & ? & _)]; [|done].
    destruct (ends_with_links _ _ _ _ _ _ _ _ _ Hend) as [_ [->| ->]].
    { by apply elem_of_nil in Hin. }
    unfold autosave_events in Hin.
    destruct ((Z.of_nat (length (results c)) + 1)
              mod autosave_interval (config c) =? 0)%Z;
      [|by apply elem_of_nil in Hin].
    by apply list_elem_of_singleton in Hin.
  - intros st text e Hp.
    destruct (loop_body_summary (Response st text) c u d q Hq)
      as [[_ [[_ [?|[?|?]]]|(_ & _ & e' & ? & _)]]|(_ & _ & _ & Hcase)];
      try done; try lia; try congruence.
    destruct Hcase as [(e' & Hp' & ->)|(page & ? & ? & Hp' & _)];
      [|congruence].
    assert (e' = e) as -> by congruence.
    eexists. split; [done|]. cbn. by rewrite !app_nil_r.
  - intros msg.
    destruct (loop_body_summary (FetchError msg) c u d q Hq)
      as [[_ [[_ [?|[?|?]]]|(_ & _ & e & ? & _)]]|(_ & _ & _ & ->)];
      try done; try lia; try congruence.
    cbn. by rewrite app_nil_r.
Qed.

(** C3, as the code has it. For a page cap that is not negative,
    [len(results) <= max_pages] holds at every point of the crawl loop
    and in the crawler the loop ends with, which it always does; and
    once the cap is reached the loop is over: its condition is false
    and the crawler is returned as it is, queue included. *)
Theorem page_cap_respected base cfg rr sr c0 :
  init base cfg = Ok c0 ->
  (0 <= max_pages cfg)%Z ->
  (forall r,
     reaches (initialize rr sr c0) r ->
     (len_results (state_of r) <= max_pages cfg)%Z
     /\ forall c, r = Next c -> (max_pages cfg <= len_results c)%Z ->
          loop_cond c = false
          /\ forall fuel net i, crawl_loop fuel net i c = Some (Next c))
  /\ (forall net,
        exists fuel r,
          crawl fuel rr sr net c0 = Some r
          /\ (len_results (state_of r) <= max_pages cfg)%Z).
Proof.
  intros Hinit Hcap.
  pose proof (start_config base cfg rr sr c0 Hinit) as Hcfg0.
  assert (Hinv : forall r,
            reaches (initialize rr sr c0) r ->
            (len_results (state_of r) <= max_pages cfg)%Z).
  { intros r Hr. rewrite <- Hcfg0 at 1.
    apply reaches_cap; [|done]. rewrite Hcfg0. unfold len_results.
    by rewrite (fresh_results _ (start_fresh base cfg rr sr c0 Hinit)). }
  split.
  - intros r Hr. split; [by apply Hinv|].
    intros c -> Hfull.
    apply reaches_config in Hr. cbn [state_of] in Hr.
    rewrite Hcfg0 in Hr.
    assert (Hcond : loop_cond c = false).
    { unfold loop_cond. rewrite Hr. apply andb_false_iff. right. lia. }
    split; [done|]. intros [|fuel] net i; cbn; by rewrite Hcond.
  - intros net. unfold crawl.
    destruct (crawl_loop_terminates net (initialize rr sr c0) 0)
      as (fuel & r & Hloop).
    exists fuel, r. split; [done|].
    eapply Hinv, crawl_loop_reaches; [apply reaches_start|exact Hloop].
Qed.

(** C4. In every crawl each URL is requested at most once: the
    requested URLs, which are exactly the visited ones, contain no
    repetition; no URL is put on the queue once it has been requested;
    and the URLs of the records in [results] are pairwise distinct. *)
Theorem each_url_fetched_once base cfg rr sr c0 r :
  init base cfg = Ok c0 ->
  reaches (initialize rr sr c0) r ->
  let c := state_of r in
  NoDup (fetched (trace c))
  /\ (forall u, u ∈ visited c <-> u ∈ fetched (trace c))
  /\ (forall tr1 tr2 u d,
        trace c = (tr1 ++ EvPut u d :: tr2)%list -> u ∉ fetched tr1)
  /\ NoDup (map url (results c)).
Proof.
  intros Hinit Hr c.
  destruct (reaches_visits_ok _ _
              (fresh_visits_ok _ (start_fresh base cfg rr sr c0 Hinit)) Hr)
    as [H1 H2 H3 H4 H5].
  fold c in H1, H2, H3, H4, H5. split_and!; try done.
  - intros tr1 tr2 u d Htr. rewrite Htr in H4.
    apply no_requeue_app in H4 as [_ [Hu _]].
    intros Hin. apply Hu. set_solver.
  - by eapply sublist_NoDup.
Qed.

Lemma to_visit_load_robots rr c : to_visit (load_robots rr c) = to_visit c.
Proof. by destruct (load_robots_sets rr c) as [p ->]. Qed.

Lemma queue_within_put_locs bound locs c :
  queue_within bound (to_visit c) ->
  queue_within bound (to_visit (put_locs locs c)).
Proof.
  revert c. induction locs as [|[t|] locs IH]; intros c Hc; cbn; try done.
  apply IH. cbn. apply Forall_app. split; [done|]. repeat constructor.
Qed.

Lemma queue_within_initialize bound rr sr c :
  to_visit c = [] -> queue_within bound (to_visit (initialize rr sr c)).
Proof.
  intros Hq. unfold initialize. cbn. apply Forall_app.
  split; [|repeat constructor].
  assert (Hrob : queue_within bound (to_visit (load_robots rr c))).
  { rewrite to_visit_load_robots, Hq. constructor. }
  unfold load_sitemap.
  destruct sr as [|st [locs|]]; try destruct (st =? 200)%Z;
    try apply queue_within_put_locs; exact Hrob.
Qed.

(** C5. In every crawl no queue entry deeper than [max_depth] is
    requested, in particular none at depth [max_depth + 1]; the links
    of a page are queued one level below the page, and only when the
    page's own depth is strictly less than [max_depth], so that every
    queue entry is a seed at depth 0 or no deeper than [max_depth]. *)
Theorem depth_bound_respected base cfg rr sr c0 r :
  init base cfg = Ok c0 ->
  reaches (initialize rr sr c0) r ->
  gets_within (max_depth cfg) (trace (state_of r))
  /\ (forall u, EvGet u (max_depth cfg + 1) ∉ trace (state_of r))
  /\ queue_within (max_depth cfg) (to_visit (state_of r))
  /\ (forall c o u d q,
        r = Next c -> to_visit c = (u, d) :: q ->
        exists ls,
          to_visit (state_of (loop_body o c))
          = (q ++ map (fun l => (l, d + 1)%Z) ls)%list
          /\ (ls <> [] -> (d < max_depth cfg)%Z)).
Proof.
  intros Hinit Hr.
  pose proof (start_config base cfg rr sr c0 Hinit) as Hcfg0.
  pose proof (reaches_visits_ok _ _
                (fresh_visits_ok _ (start_fresh base cfg rr sr c0 Hinit)) Hr)
    as Hok.
  pose proof (vis_depth _ Hok) as Hd.
  pose proof (reaches_config _ _ Hr) as Hcfg. rewrite Hcfg0 in Hcfg.
  rewrite Hcfg in Hd. split_and!.
  - done.
  - intros u Hin. unfold gets_within in Hd.
    rewrite Forall_forall in Hd. specialize (Hd _ Hin). cbn in Hd. lia.
  - rewrite <- Hcfg0 at 1.
    apply reaches_queue_within; [|done].
    apply queue_within_initialize.
    by destruct (init_fields _ _ _ Hinit) as (_ & _ & _ & _ & _ & _ & ? & _).
  - intros c o u d q -> Hq. cbn [state_of] in Hcfg.
    destruct (loop_body_queue o c u d q Hq) as (ls & Hls & Hne & _).
    exists ls. split; [done|]. intros Hnil.
    destruct (Hne Hnil) as [Hlt _]. by rewrite Hcfg in Hlt.
Qed.


(** With another interval, an iteration raises only what a library call
    raised. *)
Lemma loop_body_abort_nonzero o c u d q e c' :
  autosave_interval (config c) <> 0%Z ->
  to_visit c = (u, d) :: q ->
  loop_body o c = Abort e c' ->
  library_raised c u o e.
Proof.
  intros Hnz Hq Hbody.
  by destruct (loop_body_abort o c u d q e c' Hq Hbody) as [?|[? _]].
Qed.


End Session.

(** ** The statements on a concrete site *)

Lemma init_created cfg :
  @init Site.lib "https://example.com/" cfg = Ok (Site.created cfg).
Proof. reflexivity. Qed.

Lemma home_step_reached :
  @reaches Site.lib Site.at_home
           (@loop_body Site.lib (Response 200 Site.home_html) Site.at_home).
Proof.
  apply (@reaches_iter Site.lib); [apply (@reaches_start Site.lib)|].
  vm_compute. reflexivity.
Qed.

(** C1 fails as stated: the request for the home page of [Site] raising
    leaves its record in [errors] and [results] empty. *)
Lemma fetch_error_missing_from_results :
  let c' := state_of (@loop_body Site.lib (FetchError "connection refused")
                                 Site.at_home) in
  @reaches Site.lib Site.at_home
           (@loop_body Site.lib (FetchError "connection refused") Site.at_home)
  /\ errors c' = [error_result "https://example.com" "connection refused"]
  /\ results c' = []
  /\ ~ (forall p, In p (errors c') -> In p (results c')).
Proof.
  cbn zeta. split_and!.
  - apply (@reaches_iter Site.lib); [apply (@reaches_start Site.lib)|by vm_compute].
  - by vm_compute.
  - by vm_compute.
  - intros Hall.
    apply (Hall (error_result "https://example.com" "connection refused")).
    vm_compute. by left.
Qed.

Lemma fetch_error_goes_to_errors_only_witness :
  (@init Site.lib "https://example.com/" Site.cfg = Ok (Site.created Site.cfg)
   /\ @reaches Site.lib Site.at_home (Next Site.at_home))
  /\ exists c',
       @loop_body Site.lib (FetchError "refused") Site.at_home = Next c'
       /\ errors c' = [error_result "https://example.com" "refused"]
       /\ results c' = [].
Proof.
  split; [split; [reflexivity|apply (@reaches_start Site.lib)]|].
  destruct (@fetch_error_goes_to_errors_only Site.lib "https://example.com/"
              Site.cfg (RobotsStatus 404 None) SitemapError
              (Site.created Site.cfg) (Next Site.at_home) eq_refl
              (@reaches_start Site.lib _)) as [_ Hstep].
  destruct (Hstep Site.at_home "https://example.com" 0%Z [] "refused")
    as (c' & Hbody & He & Hr & _).
  - reflexivity.
  - reflexivity.
  - vm_compute. intros Hin. inversion Hin.
  - vm_compute. discriminate.
  - vm_compute. reflexivity.
  - exists c'. split; [exact Hbody|]. split; [exact He|exact Hr].
Defined.

(** C2 fails as stated: with an observer registered, the request for
    the home page of [Site] raising emits the request and no call of the
    observer. *)
Lemma progress_not_called_on_error :
  progress_callback (config Site.at_home) = true
  /\ trace Site.at_home = [EvPut "https://example.com" 0]
  /\ trace (state_of (@loop_body Site.lib (FetchError "connection refused")
                                 Site.at_home))
     = [EvPut "https://example.com" 0; EvGet "https://example.com" 0].
Proof. split_and!; by vm_compute. Qed.

Lemma progress_reported_after_answer_witness :
  (progress_callback (config Site.at_home) = true
   /\ to_visit Site.at_home = [("https://example.com", 0%Z)]
   /\ (0 <= max_depth (config Site.at_home))%Z
   /\ @allowed Site.lib Site.at_home "https://example.com" = Ok true)
  /\ (exists rest,
        trace (state_of (@loop_body Site.lib (Response 200 Site.home_html)
                                    Site.at_home))
        = (trace Site.at_home
           ++ EvGet "https://example.com" 0 :: EvProgress 1 10 :: rest)%list)
  /\ (exists c',
        @loop_body Site.lib (Response 200 Site.rejected_html) Site.at_home
        = Abort ParserRejectedMarkup c'
        /\ results c' = []
        /\ trace c' = (trace Site.at_home ++ [EvGet "https://example.com" 0])%list).
Proof.
  split.
  { split; [reflexivity|]. split; [reflexivity|].
    split; [vm_compute; discriminate|vm_compute; reflexivity]. }
  destruct (@progress_reported_after_answer Site.lib Site.at_home
              "https://example.com" 0%Z []) as (Hanswer & Hreject & _).
  - reflexivity.
  - reflexivity.
  - vm_compute. intros Hin. inversion Hin.
  - vm_compute. discriminate.
  - vm_compute. reflexivity.
  - split.
    + destruct (Hanswer 200%Z Site.home_html
                  (@analyzed Site.lib "https://example.com" 200 Site.home))
        as (_ & Hlen & rest & Htr & _); [vm_compute; reflexivity|].
      exists rest. rewrite Htr, Hlen. reflexivity.
    + destruct (Hreject 200%Z Site.rejected_html ParserRejectedMarkup)
        as (c' & Hbody & Hres & _ & Htr); [vm_compute; reflexivity|].
      exists c'. split; [exact Hbody|]. split; [exact Hres|exact Htr].
Defined.

(** C3 fails as stated: with [max_pages = -1] the loop starts, and
    ends, with [len(results) = 0], which is above the cap. *)
Lemma page_cap_negative :
  @reaches Site.lib Site.start_capped (Next Site.start_capped)
  /\ max_pages (config Site.start_capped) = (-1)%Z
  /\ len_results Site.start_capped = 0%Z
  /\ ~ (len_results Site.start_capped <= max_pages (config Site.start_capped))%Z
  /\ @crawl_loop Site.lib 0 Site.net 0 Site.start_capped
     = Some (Next Site.start_capped).
Proof.
  split_and!; [apply (@reaches_start Site.lib)|done|done|by vm_compute|done].
Qed.

Lemma page_cap_respected_witness :
  (@init Site.lib "https://example.com/" Site.cfg = Ok (Site.created Site.cfg)
   /\ (0 <= max_pages Site.cfg)%Z)
  /\ exists fuel r,
       @crawl Site.lib fuel (RobotsStatus 404 None) SitemapError Site.net
              (Site.created Site.cfg) = Some r
       /\ (len_results (state_of r) <= max_pages Site.cfg)%Z.
Proof.
  split; [split; [reflexivity|vm_compute; discriminate]|].
  apply (@page_cap_respected Site.lib "https://example.com/" Site.cfg
           (RobotsStatus 404 None) SitemapError (Site.created Site.cfg)
           eq_refl).
  vm_compute. discriminate.
Defined.

Lemma each_url_fetched_once_witness :
  (@init Site.lib "https://example.com/" Site.cfg = Ok (Site.created Site.cfg)
   /\ @reaches Site.lib Site.at_home
               (@loop_body Site.lib (Response 200 Site.home_html) Site.at_home))
  /\ NoDup (map url (results (state_of (@loop_body Site.lib
                                          (Response 200 Site.home_html)
                                          Site.at_home)))).
Proof.
  split; [split; [reflexivity|exact home_step_reached]|].
  apply (@each_url_fetched_once Site.lib "https://example.com/" Site.cfg
           (RobotsStatus 404 None) SitemapError (Site.created Site.cfg) _
           eq_refl home_step_reached).
Defined.

Lemma depth_bound_respected_witness :
  (@init Site.lib "https://example.com/" Site.cfg = Ok (Site.created Site.cfg)
   /\ @reaches Site.lib Site.at_home
               (@loop_body Site.lib (Response 200 Site.home_html) Site.at_home))
  /\ gets_within (max_depth Site.cfg)
                 (trace (state_of (@loop_body Site.lib
                                     (Response 200 Site.home_html)
                                     Site.at_home))).
Proof.
  split; [split; [reflexivity|exact home_step_reached]|].
  apply (@depth_bound_respected Site.lib "https://example.com/" Site.cfg
           (RobotsStatus 404 None) SitemapError (Site.created Site.cfg) _
           eq_refl home_step_reached).
Defined.



Lemma hostless_url_skips_scope_check_witness :
  (@hostname Site.lib "/orphan" = Ok None
   /\ include_subdomains (config Site.start) = false
   /\ parsed_base Site.start = Some "example.com")
  /\ @allowed Site.lib Site.start "/orphan" = @can_fetch Site.lib Site.start "/orphan"
  /\ "/orphan" ∈ visited (state_of (@loop_body Site.lib (FetchError "no host")
                                               Site.start)).
Proof.
  split; [split_and!; reflexivity|].
  destruct (@hostless_url_skips_scope_check Site.lib Site.start "/orphan")
    as [Ha Hget].
  - left. reflexivity.
  - split; [exact Ha|].
    apply (Hget (FetchError "no host") 0%Z [("https://example.com", 0%Z)]).
    + reflexivity.
    + vm_compute. intros Hin. inversion Hin.
    + vm_compute. discriminate.
    + vm_compute. reflexivity.
Defined.

(** C8 fails as stated: the HTML parser rejects the declaration
    [<![foo]>], and [parse_page] raises what the parser raises; the
    iteration of the crawl loop that was answered with it ends the loop
    with that exception. *)
Lemma parse_page_rejects_markup :
  @BeautifulSoup Site.lib Site.rejected_html = Raise ParserRejectedMarkup
  /\ @parse_page Site.lib "https://example.com" 200 Site.rejected_html
     = Raise ParserRejectedMarkup
  /\ exists c,
       @loop_body Site.lib (Response 200 Site.rejected_html) Site.at_home
       = Abort ParserRejectedMarkup c.
Proof.
  split_and!; [reflexivity|reflexivity|].
  eexists. vm_compute. reflexivity.
Qed.



(** * Further properties of the crawler *)

Section CrawlInduction.

Context `{Library}.

(** Induction over the points of a crawl, one case for each way an
    iteration can go: the entry is skipped (or [allowed] raises), the
    request raises, the parser rejects the answer, the answer is
    recorded. *)
Lemma reaches_grow_ind (P : SEOCrawler -> Prop) c0 :
  P c0 ->
  (forall c u d q,
     P c -> loop_cond c = true -> to_visit c = (u, d) :: q ->
     P (grow [] [] ∅ q [] c)) ->
  (forall c u d q msg,
     P c -> loop_cond c = true -> to_visit c = (u, d) :: q ->
     u ∉ visited c -> (d <= max_depth (config c))%Z -> allowed c u = Ok true ->
     P (grow [] [error_result u msg] {[u]} q [EvGet u d] c)) ->
  (forall c u d q st text e,
     P c -> loop_cond c = true -> to_visit c = (u, d) :: q ->
     u ∉ visited c -> (d <= max_depth (config c))%Z -> allowed c u = Ok true ->
     parse_page u st text = Raise e ->
     P (grow [] [] {[u]} q [EvGet u d] c)) ->
  (forall c u d q st text page ls auto,
     P c -> loop_cond c = true -> to_visit c = (u, d) :: q ->
     u ∉ visited c -> (d <= max_depth (config c))%Z -> allowed c u = Ok true ->
     parse_page u st text = Ok page -> url page = u -> status page = st ->
     (autosave_interval (config c) = 0%Z /\ ls = [] /\ auto = []
      \/ autosave_interval (config c) <> 0%Z
         /\ (ls = [] \/ ls = discovered (visit u d c) u d st text)
         /\ auto = autosave_events c page) ->
     P (grow [page] (if (st =? 200)%Z then [] else [page]) {[u]}
             (q ++ map (fun l => (l, d + 1)%Z) ls)
             (EvGet u d :: progress_events c ++ auto
              ++ map (fun l => EvPut l (d + 1)) ls) c)) ->
  forall r, reaches c0 r -> P (state_of r).
Proof.
  intros H0 Hskip Herr Hrej Hans r Hr.
  induction Hr as [|c o Hc IH Hcond]; [done|]. cbn [state_of] in IH.
  destruct (to_visit c) as [|[u d] q] eqn:Hq.
  { unfold loop_cond in Hcond. by rewrite Hq in Hcond. }
  destruct (loop_body_summary o c u d q Hq)
    as [[-> _]|(Hu & Hd & Ha & Hcase)]; [by eapply Hskip|].
  destruct o as [st text|msg]; [|rewrite Hcase; by eapply Herr].
  destruct Hcase as [(e & Hp & ->)
                    |(page & auto & ls & Hp & Hpu & Hps & -> & Hend)].
  { by eapply Hrej. }
  eapply Hans; eauto.
  destruct Hend as [(Hz & -> & -> & _)|(Hnz & -> & [[-> _]|[-> _]])]; auto.
Qed.

End CrawlInduction.

(** Start the induction over the points of a crawl on a goal about
    [state_of r]. *)
Ltac crawl_induction r Hr :=
  pattern (state_of r); revert r Hr; apply reaches_grow_ind; cbn beta.

Section MoreInvariants.

Context `{Library}.

(** *** The start of the loop *)

Lemma put_locs_queue locs c :
  to_visit (put_locs locs c)
  = (to_visit c ++ map (fun t => (strip t, 0%Z)) (loc_texts locs))%list
  /\ trace (put_locs locs c)
     = (trace c ++ map (fun t => EvPut (strip t) 0) (loc_texts locs))%list.
Proof.
  revert c. induction locs as [|[t|] locs IH]; intros c; cbn;
    rewrite ?app_nil_r; try done.
  destruct (IH (put (strip t) 0 c)) as [-> ->]. cbn.
  by rewrite <- !app_assoc.
Qed.

Lemma base_url_put_locs locs c : base_url (put_locs locs c) = base_url c.
Proof.
  revert c. induction locs as [|[t|] locs IH]; intros c; cbn; try done.
  by rewrite IH.
Qed.

Lemma parsed_base_put_locs locs c : parsed_base (put_locs locs c) = parsed_base c.
Proof.
  revert c. induction locs as [|[t|] locs IH]; intros c; cbn; try done.
  by rewrite IH.
Qed.

Lemma initialize_base rr sr c :
  base_url (initialize rr sr c) = base_url c
  /\ parsed_base (initialize rr sr c) = parsed_base c.
Proof.
  unfold initialize, load_sitemap.
  destruct (load_robots_sets rr c) as [p ->].
  destruct sr as [|st [locs|]]; try destruct (st =? 200)%Z; cbn;
    by rewrite ?base_url_put_locs, ?parsed_base_put_locs.
Qed.

Lemma initialize_queue rr sr c :
  to_visit c = [] -> trace c = [] ->
  to_visit (initialize rr sr c)
  = (map (fun t => (strip t, 0%Z)) (sitemap_seeds sr) ++ [(base_url c, 0%Z)])%list
  /\ trace (initialize rr sr c)
     = (map (fun t => EvPut (strip t) 0) (sitemap_seeds sr)
        ++ [EvPut (base_url c) 0])%list.
Proof.
  intros Hq Ht. unfold initialize, load_sitemap, sitemap_seeds.
  destruct (load_robots_sets rr c) as [p ->].
  destruct sr as [|st [locs|]]; try destruct (st =? 200)%Z; cbn;
    rewrite ?base_url_put_locs; cbn; rewrite ?Hq, ?Ht; try done.
  destruct (put_locs_queue locs (set_robot_parser p c)) as [-> ->]. cbn.
  by rewrite Hq, Ht.
Qed.

(** X1. Whatever robots.txt answers, the crawl loop starts with a
    queue that holds, at depth 0 and in document order, the text of each
    sitemap [loc], stripped as [str.strip] does, up to the first one
    without text, followed by the base URL without its trailing slashes;
    when the sitemap request raises, is not answered with 200 or is not
    XML, the base URL is alone.  Nothing is visited or recorded yet. *)
Theorem initialize_seeds_queue base cfg rr sr c0 :
  init base cfg = Ok c0 ->
  let c := initialize rr sr c0 in
  to_visit c
  = (map (fun t => (strip t, 0%Z)) (sitemap_seeds sr)
     ++ [(Str.rstrip "/" base, 0%Z)])%list
  /\ trace c = map (fun e => EvPut e.1 e.2) (to_visit c)
  /\ base_url c = Str.rstrip "/" base
  /\ config c = cfg
  /\ results c = [] /\ errors c = [] /\ visited c = ∅.
Proof.
  intros Hinit c.
  pose proof (init_fields _ _ _ Hinit)
    as (Hb & Hcfg & _ & _ & _ & _ & Hq0 & _ & Ht0).
  destruct (initialize_queue rr sr c0 Hq0 Ht0) as [Hq Ht].
  destruct (fresh_initialize rr sr _ (fresh_init _ _ _ Hinit)) as [Hr He Hv _].
  fold c in Hr, He, Hv, Hq, Ht. rewrite Hb in Hq, Ht. split_and!; try done.
  - rewrite Ht, Hq, map_app, map_map. done.
  - subst c. by rewrite (proj1 (initialize_base rr sr c0)).
  - subst c. by rewrite config_initialize.
Qed.

(** *** What the loop leaves alone, and what it only adds to *)

Lemma reaches_monotone c0 r :
  reaches c0 r ->
  let c := state_of r in
  results c0 `prefix_of` results c /\ errors c0 `prefix_of` errors c
  /\ trace c0 `prefix_of` trace c /\ visited c0 ⊆ visited c
  /\ config c = config c0 /\ parsed_base c = parsed_base c0
  /\ robot_parser c = robot_parser c0 /\ base_url c = base_url c0.
Proof.
  intros Hr c. subst c. crawl_induction r Hr.
  - split_and!; done.
  - intros c u d q (H1 & H2 & H3 & H4 & H5 & H6 & H7 & H8) _ _. cbn.
    rewrite !app_nil_r. split_and!; try done. set_solver.
  - intros c u d q msg (H1 & H2 & H3 & H4 & H5 & H6 & H7 & H8) _ _ _ _ _. cbn.
    rewrite !app_nil_r. split_and!; try done.
    + etrans; [done|]. by apply prefix_app_r.
    + etrans; [done|]. by apply prefix_app_r.
    + set_solver.
  - intros c u d q st text e (H1 & H2 & H3 & H4 & H5 & H6 & H7 & H8)
      _ _ _ _ _ _. cbn.
    rewrite !app_nil_r. split_and!; try done.
    + etrans; [done|]. by apply prefix_app_r.
    + set_solver.
  - intros c u d q st text page ls auto
      (H1 & H2 & H3 & H4 & H5 & H6 & H7 & H8) _ _ _ _ _ _ _ _ _. cbn.
    split_and!; try done; try (etrans; [done|]; by apply prefix_app_r).
    set_solver.
Qed.

Lemma reaches_allowed_same c0 r u :
  reaches c0 r -> allowed (state_of r) u = allowed c0 u.
Proof.
  intros Hr. destruct (reaches_monotone c0 r Hr) as (_ & _ & _ & _ & ? & ? & ? & _).
  by apply allowed_same.
Qed.

(** Every visited URL passed [allowed]. *)
Lemma reaches_visited_allowed c0 r :
  (forall u, u ∈ visited c0 -> allowed c0 u = Ok true) ->
  reaches c0 r ->
  forall u, u ∈ visited (state_of r) -> allowed c0 u = Ok true.
Proof.
  intros H0 Hr.
  enough (Hinv : (forall u, allowed (state_of r) u = allowed c0 u)
                 /\ forall u, u ∈ visited (state_of r) -> allowed c0 u = Ok true)
    by apply Hinv.
  crawl_induction r Hr.
  - done.
  - intros c u d q [Hs Hv] _ _. split; [intros u'; by rewrite <- Hs|].
    intros u'. cbn. rewrite elem_of_union. intros [[]%elem_of_empty|?]; eauto.
  - intros c u d q msg [Hs Hv] _ _ _ _ Ha. split; [intros u'; by rewrite <- Hs|].
    intros u'. cbn. rewrite elem_of_union, elem_of_singleton.
    intros [->|?]; [by rewrite <- Hs|eauto].
  - intros c u d q st text e [Hs Hv] _ _ _ _ Ha _.
    split; [intros u'; by rewrite <- Hs|].
    intros u'. cbn. rewrite elem_of_union, elem_of_singleton.
    intros [->|?]; [by rewrite <- Hs|eauto].
  - intros c u d q st text page ls auto [Hs Hv] _ _ _ _ Ha _ _ _ _.
    split; [intros u'; by rewrite <- Hs|].
    intros u'. cbn. rewrite elem_of_union, elem_of_singleton.
    intros [->|?]; [by rewrite <- Hs|eauto].
Qed.

(** No record is for a URL that was not requested. *)
Lemma reaches_records_visited c0 r :
  (forall p, p ∈ records c0 -> url p ∈ visited c0) ->
  reaches c0 r ->
  forall p, p ∈ records (state_of r) -> url p ∈ visited (state_of r).
Proof.
  intros H1 Hr. unfold records. crawl_induction r Hr.
  - done.
  - intros c u d q Hp _ _. cbn. rewrite !app_nil_r.
    intros p Hin. specialize (Hp p Hin). set_solver.
  - intros c u d q msg Hp _ _ _ _ _. cbn. rewrite !app_nil_r.
    intros p. rewrite !elem_of_app, list_elem_of_singleton.
    intros [Hin|[Hin| ->]]; [| |set_solver];
      (assert (url p ∈ visited c) by (apply Hp; set_solver)); set_solver.
  - intros c u d q st text e Hp _ _ _ _ _ _. cbn. rewrite !app_nil_r.
    intros p Hin. specialize (Hp p Hin). set_solver.
  - intros c u d q st text page ls auto Hp _ _ _ _ _ _ Hpu _ _. cbn.
    intros p. rewrite !elem_of_app, list_elem_of_singleton.
    intros [[Hin| ->]|[Hin|Hin]].
    + assert (url p ∈ visited c) by (apply Hp; set_solver). set_solver.
    + set_solver.
    + assert (url p ∈ visited c) by (apply Hp; set_solver). set_solver.
    + destruct (st =? 200)%Z; [by apply elem_of_nil in Hin|].
      apply list_elem_of_singleton in Hin as ->. set_solver.
Qed.

(** Where the loop goes on, every request has left a record. *)
Lemma reaches_next_recorded c0 r :
  (forall u, u ∈ visited c0 -> exists p, p ∈ records c0 /\ url p = u) ->
  reaches c0 r ->
  forall c, r = Next c ->
    forall u, u ∈ visited c -> exists p, p ∈ records c /\ url p = u.
Proof.
  intros H0 Hr. unfold records.
  induction Hr as [|c1 o Hc IH Hcond]; [by intros c [= <-]|].
  specialize (IH c1 eq_refl). intros c Hbody.
  destruct (to_visit c1) as [|[u d] q] eqn:Hq.
  { unfold loop_cond in Hcond. by rewrite Hq in Hcond. }
  pose proof (loop_body_summary o c1 u d q Hq) as Hsum.
  rewrite Hbody in Hsum. cbn [state_of raised] in Hsum.
  destruct Hsum as [[-> _]|(Hu & Hd & Ha & Hcase)].
  { cbn. rewrite !app_nil_r. intros u'. rewrite elem_of_union.
    intros [[]%elem_of_empty|?]; eauto. }
  destruct o as [st text|msg].
  - destruct Hcase as [(e & _ & [=])
                      |(page & auto & ls & _ & Hpu & _ & -> & _)].
    cbn. intros u'. rewrite elem_of_union, elem_of_singleton. intros [->|Hin].
    + exists page. split; [set_solver|done].
    + destruct (IH u' Hin) as (p & Hin' & <-). exists p. split; [|done].
      set_solver.
  - injection Hcase as ->. cbn. rewrite !app_nil_r.
    intros u'. rewrite elem_of_union, elem_of_singleton. intros [->|Hin].
    + exists (error_result u msg). split; [set_solver|done].
    + destruct (IH u' Hin) as (p & Hin' & <-). exists p. split; [|done].
      set_solver.
Qed.

(** How records are split between [results] and [errors]. *)
Lemma reaches_classified c0 r :
  (forall p, p ∈ errors c0 -> status p <> 200%Z) ->
  (forall p, p ∈ results c0 -> status p <> 200%Z -> p ∈ errors c0) ->
  reaches c0 r ->
  (forall p, p ∈ errors (state_of r) -> status p <> 200%Z)
  /\ (forall p, p ∈ results (state_of r) -> status p <> 200%Z ->
                p ∈ errors (state_of r)).
Proof.
  intros H1 H2 Hr. crawl_induction r Hr.
  - done.
  - intros c u d q [He Hres] _ _. cbn. by rewrite !app_nil_r.
  - intros c u d q msg [He Hres] _ _ _ _ _. cbn. rewrite !app_nil_r. split.
    + intros p. rewrite elem_of_app, list_elem_of_singleton.
      intros [?| ->]; [eauto|done].
    + intros p Hin Hst. apply elem_of_app. left. eauto.
  - intros c u d q st text e [He Hres] _ _ _ _ _ _. cbn. by rewrite !app_nil_r.
  - intros c u d q st text page ls auto [He Hres] _ _ _ _ _ _ _ Hps _. cbn.
    split.
    + intros p. rewrite elem_of_app. intros [?|Hin]; [eauto|].
      destruct (st =? 200)%Z eqn:Hst; [by apply elem_of_nil in Hin|].
      apply list_elem_of_singleton in Hin as ->. lia.
    + intros p. rewrite !elem_of_app, list_elem_of_singleton.
      intros [Hin| ->] Hst; [left; eauto|]. right.
      destruct (st =? 200)%Z eqn:Hst'; [lia|]. by apply list_elem_of_singleton.
Qed.

Lemma allowed_true_scope c u :
  allowed c u = Ok true ->
  can_fetch c u = Ok true
  /\ (include_subdomains (config c) = true
      \/ hostname u = Ok None \/ hostname u = Ok (Some "")
      \/ hostname u = Ok (parsed_base c)).
Proof.
  unfold allowed, other_host.
  destruct (include_subdomains (config c)); cbn; [by eauto|].
  destruct (hostname u) as [[h|]|e]; cbn; [|by eauto|done].
  destruct (h =? "") eqn:Hh; cbn.
  { apply String.eqb_eq in Hh as ->. by eauto 6. }
  case_bool_decide as Hb; cbn; [|done]. rewrite Hb. by eauto 6.
Qed.

(** X2. Throughout a crawl the answer of [allowed] for a URL is the one
    it has when the loop starts, and every URL that is visited, and so
    every URL with a record in [results] or [errors], is one that
    [allowed] admits: a URL the robots rules or the host check reject
    is never requested. *)
Theorem only_allowed_urls_are_requested base cfg rr sr c0 r :
  init base cfg = Ok c0 ->
  reaches (initialize rr sr c0) r ->
  let c := state_of r in
  (forall u, allowed c u = allowed (initialize rr sr c0) u)
  /\ (forall u, u ∈ visited c -> allowed c u = Ok true)
  /\ (forall p, p ∈ records c -> allowed c (url p) = Ok true).
Proof.
  intros Hinit Hr c.
  pose proof (start_fresh base cfg rr sr c0 Hinit) as Hfresh.
  assert (Hsame : forall u, allowed c u = allowed (initialize rr sr c0) u)
    by (intros u; by apply reaches_allowed_same).
  assert (Hvis : forall u, u ∈ visited c -> allowed c u = Ok true).
  { intros u Hu. rewrite Hsame.
    eapply reaches_visited_allowed; [|exact Hr|exact Hu].
    intros u'. rewrite (fresh_visited _ Hfresh).
    by intros ?%elem_of_empty. }
  split_and!; try done.
  intros p Hp. apply Hvis.
  apply (reaches_records_visited (initialize rr sr c0) r); try done.
  intros p'. unfold records.
  rewrite (fresh_results _ Hfresh), (fresh_errors _ Hfresh).
  by intros ?%elem_of_nil.
Qed.

(** X3. With [include_subdomains] off, every URL a crawl visits either
    names no host or names the host of the base URL, compared as
    [urlparse] reports them. *)
Theorem requests_stay_on_base_host base cfg rr sr c0 r :
  init base cfg = Ok c0 ->
  include_subdomains cfg = false ->
  reaches (initialize rr sr c0) r ->
  forall u, u ∈ visited (state_of r) ->
    hostname u = Ok None \/ hostname u = Ok (Some "")
    \/ hostname u = hostname (Str.rstrip "/" base).
Proof.
  intros Hinit Hinc Hr u Hu.
  assert (Ha : allowed (initialize rr sr c0) u = Ok true).
  { eapply reaches_visited_allowed; [|exact Hr|exact Hu].
    intros u'.
    rewrite (fresh_visited _ (start_fresh base cfg rr sr c0 Hinit)).
    by intros ?%elem_of_empty. }
  apply allowed_true_scope in Ha as [_ Hs].
  rewrite (start_config base cfg rr sr c0 Hinit), Hinc in Hs.
  rewrite (proj2 (initialize_base rr sr c0)) in Hs.
  destruct (init_fields _ _ _ Hinit) as (_ & _ & Hh & _).
  rewrite <- Hh in Hs. destruct Hs as [?|Hs]; [done|exact Hs].
Qed.

(** X4. Throughout a crawl no record in [errors] has status 200, and a
    record in [results] is also in [errors] exactly when its status is not
    200: pages answered with 200 are in [results] only. *)
Theorem errors_hold_the_non_200_records base cfg rr sr c0 r :
  init base cfg = Ok c0 ->
  reaches (initialize rr sr c0) r ->
  let c := state_of r in
  (forall p, p ∈ errors c -> status p <> 200%Z)
  /\ (forall p, p ∈ results c -> (p ∈ errors c <-> status p <> 200%Z)).
Proof.
  intros Hinit Hr c.
  pose proof (start_fresh base cfg rr sr c0 Hinit) as Hfresh.
  destruct (reaches_classified (initialize rr sr c0) r) as [He Hres].
  - rewrite (fresh_errors _ Hfresh). by intros p ?%elem_of_nil.
  - rewrite (fresh_results _ Hfresh). by intros p ?%elem_of_nil.
  - done.
  - split; [done|]. intros p Hp. split; [apply He|by apply Hres].
Qed.

(** X5. Throughout a crawl no record in [results] or [errors] is for a
    URL that was not requested; and at every point the loop goes on
    from, the URLs with a record are exactly the visited URLs: every
    request of an iteration that raised nothing has left a record.  (An
    iteration raises between the two when the HTML parser rejects the
    answer.) *)
Theorem every_visit_leaves_a_record base cfg rr sr c0 r :
  init base cfg = Ok c0 ->
  reaches (initialize rr sr c0) r ->
  (forall p, p ∈ records (state_of r) -> url p ∈ visited (state_of r))
  /\ (forall c, r = Next c ->
        forall u, u ∈ visited c <-> exists p, p ∈ records c /\ url p = u).
Proof.
  intros Hinit Hr.
  pose proof (start_fresh base cfg rr sr c0 Hinit) as Hfresh.
  assert (Hrec : forall p, p ∈ records (state_of r) ->
                           url p ∈ visited (state_of r)).
  { apply (reaches_records_visited (initialize rr sr c0) r); [|done].
    intros p. unfold records.
    rewrite (fresh_results _ Hfresh), (fresh_errors _ Hfresh).
    by intros ?%elem_of_nil. }
  split; [done|]. intros c -> u. split.
  - apply (reaches_next_recorded (initialize rr sr c0) (Next c)); try done.
    intros u'. rewrite (fresh_visited _ Hfresh). by intros ?%elem_of_empty.
  - intros (p & Hin & <-). by apply Hrec.
Qed.

(** X6. From any point of a crawl on, [results], [errors] and the trace
    only get longer at the end, [visited] only grows, and the
    configuration, the base URL and the robots rules stay as they are. *)
Theorem crawl_only_appends c0 r :
  reaches c0 r ->
  let c := state_of r in
  results c0 `prefix_of` results c /\ errors c0 `prefix_of` errors c
  /\ trace c0 `prefix_of` trace c /\ visited c0 ⊆ visited c
  /\ config c = config c0 /\ parsed_base c = parsed_base c0
  /\ robot_parser c = robot_parser c0 /\ base_url c = base_url c0.
Proof. apply reaches_monotone. Qed.

End MoreInvariants.

Section Order.

Context `{Library}.

(** *** What the events of an answered request contribute to a view *)

Lemma omap_puts {A} (f : event -> option A) d ls :
  (forall l, f (EvPut l d) = None) ->
  omap f (map (fun l => EvPut l d) ls) = [].
Proof. intros Hf. induction ls as [|l ls IH]; cbn; [done|]. by rewrite Hf. Qed.

Lemma get_depths_answered c auto page d ls :
  auto = [] \/ auto = autosave_events c page ->
  get_depths (progress_events c ++ auto ++ map (fun l => EvPut l d) ls) = [].
Proof.
  intros Hauto. unfold get_depths. rewrite !omap_app, omap_puts by done.
  unfold progress_events, autosave_events in *.
  destruct (progress_callback _); destruct Hauto as [->| ->];
    try destruct (_ =? _)%Z; done.
Qed.


Lemma progress_calls_answered c auto page d ls :
  auto = [] \/ auto = autosave_events c page ->
  progress_calls (progress_events c ++ auto ++ map (fun l => EvPut l d) ls)
  = progress_calls (progress_events c).
Proof.
  intros Hauto. unfold progress_calls. rewrite !omap_app, omap_puts by done.
  unfold autosave_events in *.
  destruct Hauto as [->| ->]; try destruct (_ =? _)%Z; cbn; by rewrite app_nil_r.
Qed.

(** *** Breadth first *)

Lemma constant_sorted (v : Z) l :
  (forall x, x ∈ l -> x = v) -> StronglySorted Z.le l.
Proof.
  intros Hl. induction l as [|x l IH]; constructor.
  { apply IH. intros y ?. apply Hl. by apply list_elem_of_further. }
  apply Forall_forall. intros y Hy.
  rewrite (Hl x), (Hl y); [lia|by apply list_elem_of_further|
                           apply list_elem_of_here].
Qed.

Lemma reaches_breadth_first c0 r :
  StronglySorted Z.le (get_depths (trace c0) ++ map snd (to_visit c0)) ->
  (forall x y, x ∈ map snd (to_visit c0) -> y ∈ map snd (to_visit c0) ->
               (x <= y + 1)%Z) ->
  reaches c0 r ->
  StronglySorted Z.le (get_depths (trace (state_of r))
                       ++ map snd (to_visit (state_of r)))
  /\ (forall x y, x ∈ map snd (to_visit (state_of r)) ->
                  y ∈ map snd (to_visit (state_of r)) -> (x <= y + 1)%Z).
Proof.
  intros H1 H2 Hr. crawl_induction r Hr; [done|..].
  - intros c u d q [Hs Hn] _ Hq. cbn. rewrite app_nil_r.
    rewrite Hq in Hs, Hn. cbn in Hs, Hn. split.
    + apply StronglySorted_app in Hs as (Hle & Hg & [_ Hqs]%StronglySorted_cons).
      apply StronglySorted_app. split_and!; try done.
      intros x1 x2 ? ?. apply Hle; [done|]. by apply list_elem_of_further.
    + intros x y ? ?. apply Hn; by apply list_elem_of_further.
  - intros c u d q msg [Hs Hn] _ Hq _ _ _. cbn.
    rewrite Hq in Hs, Hn. cbn in Hs, Hn. split.
    + unfold get_depths. rewrite omap_app. cbn. by rewrite <- app_assoc.
    + intros x y ? ?. apply Hn; by apply list_elem_of_further.
  - intros c u d q st text e [Hs Hn] _ Hq _ _ _ _. cbn.
    rewrite Hq in Hs, Hn. cbn in Hs, Hn. split.
    + unfold get_depths. rewrite omap_app. cbn. by rewrite <- app_assoc.
    + intros x y ? ?. apply Hn; by apply list_elem_of_further.
  - intros c u d q st text page ls auto [Hs Hn] _ Hq _ _ _ _ _ _ Hauto.
    cbn -[get_depths].
    rewrite Hq in Hs, Hn. cbn -[get_depths] in Hs, Hn.
    assert (Hgd : get_depths
                    (trace c ++ EvGet u d :: progress_events c ++ auto
                     ++ map (fun l => EvPut l (d + 1)) ls)
                  = (get_depths (trace c) ++ [d])%list).
    { unfold get_depths at 1. rewrite omap_app. cbn.
      fold (get_depths (progress_events c ++ auto
                        ++ map (fun l => EvPut l (d + 1)) ls)).
      rewrite (get_depths_answered c auto page); [done|tauto]. }
    rewrite Hgd. clear Hgd.
    apply StronglySorted_app in Hs as (Hle & Hg & [Hdq Hqs]%StronglySorted_cons).
    rewrite Forall_forall in Hdq.
    assert (Hq1 : forall x, x ∈ map snd q -> (d <= x <= d + 1)%Z).
    { intros x Hx. split; [by apply Hdq|].
      apply Hn; [by apply list_elem_of_further|by apply list_elem_of_here]. }
    assert (Hnew : forall x, x ∈ map snd (map (fun l => (l, (d + 1)%Z)) ls) ->
                             x = (d + 1)%Z).
    { intros x. rewrite map_map. cbn. by intros (l & -> & _)%list_elem_of_fmap. }
    rewrite map_app. split.
    + rewrite <- app_assoc. apply StronglySorted_app. split_and!; [|done|].
      * intros x1 x2 Hx1. cbn. rewrite elem_of_cons, elem_of_app.
        assert (x1 <= d)%Z by (apply Hle; [done|apply list_elem_of_here]).
        intros [->|[?%Hq1| ->%Hnew]]; lia.
      * cbn. apply StronglySorted_cons. split.
        { apply Forall_forall. intros x. rewrite elem_of_app.
          intros [?%Hq1| ->%Hnew]; lia. }
        apply StronglySorted_app. split_and!; [|done|].
        { intros x1 x2 ?%Hq1 ->%Hnew. lia. }
        by eapply constant_sorted.
    + intros x y. rewrite !elem_of_app.
      intros [?%Hq1| ->%Hnew] [?%Hq1| ->%Hnew]; lia.
Qed.

Lemma initialize_queue_zero base cfg rr sr c0 :
  init base cfg = Ok c0 ->
  let c := initialize rr sr c0 in
  Forall (fun e => e.2 = 0%Z) (to_visit c) /\ get_depths (trace c) = [].
Proof.
  intros Hinit c. split.
  - destruct (init_fields _ _ _ Hinit) as (_ & _ & _ & _ & _ & _ & Hq0 & _ & Ht0).
    subst c. rewrite (proj1 (initialize_queue rr sr c0 Hq0 Ht0)).
    apply Forall_app; split; [|by repeat constructor].
    by apply Forall_map, Forall_forall.
  - pose proof (fresh_trace _ (start_fresh base cfg rr sr c0 Hinit)) as Ht.
    fold c in Ht.
    induction Ht as [|e tr (u & d & ->) _ IH]; done.
Qed.

(** X7. A crawl is breadth first: the depths of its requests never
    decrease along the trace, the queue is in order of depth behind them,
    and it never holds entries more than one level apart. *)
Theorem crawl_is_breadth_first base cfg rr sr c0 r :
  init base cfg = Ok c0 ->
  reaches (initialize rr sr c0) r ->
  let c := state_of r in
  StronglySorted Z.le (get_depths (trace c) ++ map snd (to_visit c))
  /\ (forall x y, x ∈ map snd (to_visit c) -> y ∈ map snd (to_visit c) ->
                  (x <= y + 1)%Z).
Proof.
  intros Hinit Hr c.
  destruct (initialize_queue_zero base cfg rr sr c0 Hinit) as [Hz Hg].
  rewrite Forall_forall in Hz.
  assert (Hall : forall x, x ∈ map snd (to_visit (initialize rr sr c0))
                           -> x = 0%Z).
  { intros x ([u d] & -> & Hin)%list_elem_of_fmap. by apply Hz in Hin. }
  apply (reaches_breadth_first (initialize rr sr c0) r); [| |done].
  - rewrite Hg, app_nil_l. by eapply constant_sorted.
  - intros x y ->%Hall ->%Hall. lia.
Qed.

End Order.

Section Reports.

Context `{Library}.







Lemma expected_progress_grow c page es vis q evs :
  expected_progress (grow [page] es vis q evs c)
  = (expected_progress c ++ progress_calls (progress_events c))%list.
Proof.
  unfold expected_progress, progress_events. cbn.
  destruct (progress_callback (config c)); [|done].
  rewrite length_app. cbn [length]. rewrite Nat.add_1_r, seq_S, map_app. cbn.
  do 3 f_equal. lia.
Qed.

Lemma reaches_progress c0 r :
  progress_calls (trace c0) = expected_progress c0 ->
  reaches c0 r ->
  progress_calls (trace (state_of r)) = expected_progress (state_of r).
Proof.
  intros H0 Hr. crawl_induction r Hr; [done|..].
  - intros c u d q Hp _ _. unfold expected_progress. cbn -[progress_calls].
    rewrite !app_nil_r. exact Hp.
  - intros c u d q msg Hp _ _ _ _ _. unfold expected_progress in *.
    cbn -[progress_calls]. rewrite app_nil_r, <- Hp.
    unfold progress_calls. rewrite omap_app. cbn. by rewrite app_nil_r.
  - intros c u d q st text e Hp _ _ _ _ _ _. unfold expected_progress in *.
    cbn -[progress_calls]. rewrite app_nil_r, <- Hp.
    unfold progress_calls. rewrite omap_app. cbn. by rewrite app_nil_r.
  - intros c u d q st text page ls auto Hp _ _ _ _ _ _ _ _ Hauto.
    rewrite expected_progress_grow, <- Hp. cbn -[progress_calls].
    unfold progress_calls at 1. rewrite omap_app. cbn [omap list_omap].
    fold (progress_calls (trace c)).
    fold (progress_calls (progress_events c ++ auto
                          ++ map (fun l => EvPut l (d + 1)) ls)).
    rewrite (progress_calls_answered c auto page); [done|tauto].
Qed.

(** X9. Throughout a crawl with an observer registered, the observer has
    been called once for each record in [results], with 1, 2, ... up to
    [len(results)] as first argument and [max_pages] as second, in that
    order; without an observer nothing is called. *)
Theorem progress_counts_the_results base cfg rr sr c0 r :
  init base cfg = Ok c0 ->
  reaches (initialize rr sr c0) r ->
  progress_calls (trace (state_of r))
  = if progress_callback cfg
    then map (fun k => (Z.of_nat k, max_pages cfg))
             (seq 1 (length (results (state_of r))))
    else [].
Proof.
  intros Hinit Hr.
  pose proof (reaches_config _ _ Hr) as Hcfg.
  rewrite (start_config base cfg rr sr c0 Hinit) in Hcfg.
  rewrite <- Hcfg. apply (reaches_progress (initialize rr sr c0) r);
    [|done].
  destruct (start_fresh base cfg rr sr c0 Hinit) as [Hres _ _ Ht].
  assert (Hs : progress_calls (trace (initialize rr sr c0)) = []).
  { induction Ht as [|e tr (u & d & ->) _ IH]; done. }
  unfold expected_progress. rewrite Hres, Hs. by destruct (progress_callback _).
Qed.

End Reports.

Section Bounds.

Context `{Library}.

Lemma discovered_http c u d st text l :
  l ∈ discovered c u d st text -> Str.startswith l "http" = true.
Proof.
  unfold discovered. destruct (_ && _); [|by intros ?%elem_of_nil].
  destruct (extract_links c text u) as [links|e] eqn:Hex;
    [|by intros ?%elem_of_nil].
  rewrite list_elem_of_In. intros [Hin _]%filter_In.
  apply extract_links_http in Hex.
  by apply (proj1 (List.Forall_forall _ _) Hex) in Hin as [? _].
Qed.

Lemma puts_only_fetched tr :
  Forall (fun e => exists u d, e = EvPut u d) tr -> fetched tr = [].
Proof. induction 1 as [|e tr (u & d & ->) _ IH]; done. Qed.

Lemma reaches_depths c0 r :
  Forall (fun e => e.2 = 0%Z) (to_visit c0) -> get_depths (trace c0) = [] ->
  fetched (trace c0) = [] ->
  reaches c0 r ->
  Forall (fun e => (0 <= e.2)%Z
                   /\ (e.2 <> 0%Z -> Str.startswith e.1 "http" = true))
         (to_visit (state_of r))
  /\ Forall (fun e => match e with
                      | EvGet u d =>
                          (0 <= d)%Z
                          /\ (d <> 0%Z -> Str.startswith u "http" = true)
                      | _ => True
                      end) (trace (state_of r)).
Proof.
  intros Hq0 Hg0 Hf0 Hr. crawl_induction r Hr.
  - split.
    + eapply Forall_impl; [exact Hq0|]. intros [u d]; cbn. intros ->. by split.
    + apply Forall_forall. intros [u d|u d|n m|rows] Hin; try done.
      assert (u ∈ fetched (trace c0)); [|by rewrite Hf0 in *; set_solver].
      unfold fetched. apply list_elem_of_omap. by exists (EvGet u d).
  - intros c u d q [Hq Ht] _ Hc. cbn. rewrite app_nil_r. split; [|done].
    rewrite Hc in Hq. by inversion Hq.
  - intros c u d q msg [Hq Ht] _ Hc _ _ _. cbn.
    rewrite Hc in Hq. inversion Hq as [|? ? Hud Hq']; subst. split; [done|].
    apply Forall_app. split; [done|]. constructor; [exact Hud|constructor].
  - intros c u d q st text e [Hq Ht] _ Hc _ _ _ _. cbn.
    rewrite Hc in Hq. inversion Hq as [|? ? Hud Hq']; subst. split; [done|].
    apply Forall_app. split; [done|]. constructor; [exact Hud|constructor].
  - intros c u d q st text page ls auto [Hq Ht] _ Hc _ _ _ _ _ _ Hauto. cbn.
    rewrite Hc in Hq. inversion Hq as [|? ? Hud Hq']; subst. cbn in Hud.
    assert (Hls : Forall (fun l => Str.startswith l "http" = true) ls).
    { destruct Hauto as [(_ & -> & _)|(_ & [->| ->] & _)]; try constructor.
      apply Forall_forall. intros l. apply discovered_http. }
    split.
    + apply Forall_app. split; [done|]. apply Forall_map.
      eapply Forall_impl; [exact Hls|]. cbn. intros l Hl. split; [lia|done].
    + apply Forall_app. split; [done|]. constructor; [done|].
      apply Forall_app. split.
      { unfold progress_events. destruct (progress_callback _); by repeat constructor. }
      apply Forall_app. split.
      { destruct Hauto as [(_ & _ & ->)|(_ & _ & ->)]; [constructor|].
        unfold autosave_events. destruct (_ =? _)%Z; by repeat constructor. }
      by apply Forall_map, Forall_forall.
Qed.

(** X10. In every crawl depths are never negative, and every request
    below the seeds, as every queue entry below them, is for a URL whose
    text starts with [http]: only the base URL and the sitemap entries
    are requested whatever they look like. *)
Theorem deeper_requests_start_with_http base cfg rr sr c0 r :
  init base cfg = Ok c0 ->
  reaches (initialize rr sr c0) r ->
  (forall u d, EvGet u d ∈ trace (state_of r) ->
     (0 <= d)%Z /\ (d <> 0%Z -> Str.startswith u "http" = true))
  /\ (forall u d, (u, d) ∈ to_visit (state_of r) ->
       (0 <= d)%Z /\ (d <> 0%Z -> Str.startswith u "http" = true)).
Proof.
  intros Hinit Hr.
  destruct (initialize_queue_zero base cfg rr sr c0 Hinit) as [Hz Hg].
  pose proof (puts_only_fetched _
                (fresh_trace _ (start_fresh base cfg rr sr c0 Hinit))) as Hf.
  destruct (reaches_depths _ r Hz Hg Hf Hr) as [Hq Ht].
  split.
  - intros u d Hin. apply (proj1 (Forall_forall _ _) Ht _ Hin).
  - intros u d Hin. apply (proj1 (Forall_forall _ _) Hq _ Hin).
Qed.

(** X11. With a negative [max_depth] a crawl requests nothing: at every
    point nothing is visited and [results] and [errors] are empty, the
    seeds being dropped one by one. *)
Theorem negative_max_depth_requests_nothing base cfg rr sr c0 r :
  init base cfg = Ok c0 ->
  (max_depth cfg < 0)%Z ->
  reaches (initialize rr sr c0) r ->
  let c := state_of r in
  visited c = ∅ /\ results c = [] /\ errors c = []
  /\ fetched (trace c) = []
  /\ exists c', r = Next c'.
Proof.
  intros Hinit Hneg Hr c.
  pose proof (start_fresh base cfg rr sr c0 Hinit) as Hfresh.
  pose proof (start_config base cfg rr sr c0 Hinit) as Hcfg0.
  destruct (initialize_queue_zero base cfg rr sr c0 Hinit) as [Hz Hg].
  pose proof (puts_only_fetched _ (fresh_trace _ Hfresh)) as Hf.
  destruct (reaches_depths _ r Hz Hg Hf Hr) as [_ Ht].
  pose proof (reaches_visits_ok _ _ (fresh_visits_ok _ Hfresh) Hr) as Hok.
  pose proof (reaches_config _ _ Hr) as Hcfg. rewrite Hcfg0 in Hcfg.
  fold c in Ht, Hok, Hcfg.
  assert (Hnone : fetched (trace c) = []).
  { pose proof (vis_depth _ Hok) as Hd. rewrite Hcfg in Hd.
    unfold gets_within in Hd.
    pose proof (proj1 (Forall_forall _ _) Hd) as Hd'.
    pose proof (proj1 (Forall_forall _ _) Ht) as Ht'. clear Hd Ht.
    rename Hd' into Hd, Ht' into Ht.
    destruct (fetched (trace c)) as [|u l] eqn:Hfe; [done|].
    assert (Hu : u ∈ fetched (trace c)) by (rewrite Hfe; apply list_elem_of_here).
    unfold fetched in Hu. apply list_elem_of_omap in Hu as (e & Hin & He).
    destruct e as [|u' d| |]; try done.
    specialize (Hd _ Hin). specialize (Ht _ Hin). cbn in Hd, Ht. lia. }
  assert (Hvis : visited c = ∅).
  { apply set_eq. intros u. rewrite (vis_fetched _ Hok), Hnone. set_solver. }
  assert (Hp : forall p, p ∈ records c -> url p ∈ visited c).
  { apply (reaches_records_visited (initialize rr sr c0) r); [|done].
    intros p. unfold records.
    rewrite (fresh_results _ Hfresh), (fresh_errors _ Hfresh).
    by intros ?%elem_of_nil. }
  assert (Hrec : records c = []).
  { destruct (records c) as [|p l] eqn:Hrc; [done|].
    specialize (Hp p (list_elem_of_here _ _)). rewrite Hvis in Hp.
    by apply elem_of_empty in Hp. }
  unfold records in Hrec. apply app_eq_nil in Hrec as [Hres Herr].
  split_and!; try done.
  destruct r as [c'|e c']; [eauto|].
  exfalso. inversion Hr as [|c1 o Hc1 Hcond Heq].
  pose proof (reaches_config _ _ Hc1) as Hcfg1. cbn [state_of] in Hcfg1.
  rewrite Hcfg0 in Hcfg1.
  destruct (to_visit c1) as [|[u d] q] eqn:Hq.
  { unfold loop_body in Heq. by rewrite Hq in Heq. }
  assert (Hd : (0 <= d)%Z).
  { destruct (initialize_queue_zero base cfg rr sr c0 Hinit) as [Hz' Hg'].
    destruct (reaches_depths _ _ Hz' Hg' Hf Hc1) as [Hq1 _].
    cbn [state_of] in Hq1. rewrite Hq in Hq1. inversion Hq1 as [|? ? [? _] _].
    done. }
  pose proof (loop_body_summary o c1 u d q Hq) as Hsum.
  rewrite Heq in Hsum. cbn [state_of raised] in Hsum.
  destruct Hsum as [[_ [[[=] _]|(_ & Hle & _)]]|(_ & Hle & _)];
    rewrite Hcfg1 in Hle; lia.
Qed.



(** With an autosave interval other than 0, an exception that ends a
    crawl is one a library call raised in its last iteration. *)
Lemma reaches_abort_library c0 e c' :
  autosave_interval (config c0) <> 0%Z -> reaches c0 (Abort e c') ->
  exists c u o,
    reaches c0 (Next c) /\ loop_body o c = Abort e c'
    /\ library_raised c u o e.
Proof.
  intros Hnz Hr. inversion Hr as [|c o Hc Hcond Heq]; subst.
  pose proof (reaches_config _ _ Hc) as Hcfg. cbn [state_of] in Hcfg.
  destruct (to_visit c) as [|[u d] q] eqn:Hq.
  { unfold loop_body in Heq. by rewrite Hq in Heq. }
  exists c, u, o. split_and!; try done.
  eapply loop_body_abort_nonzero; [by rewrite Hcfg|done..].
Qed.

(** X13. [start_crawl] creates no crawler when the URL field is empty
    or holds only what [str.strip] removes.  Otherwise it calls
    [SEOCrawler] on the stripped text with the default bounds and the
    window's observer, which raises what [urlparse] raises on that text.
    The crawl of the crawler so created always comes to an end, with at
    most 100 results, and an exception that ends it is one a library call
    raised in the last iteration: the test of the autosave interval
    raises nothing. *)
Theorem window_crawl_runs_to_its_end text :
  (Gui.start_crawl text = None <-> strip text = "")
  /\ (forall r, Gui.start_crawl text = Some r ->
        r = init (strip text) Gui.default_config)
  /\ forall c, Gui.start_crawl text = Some (Ok c) ->
       forall rr sr net,
         exists fuel r,
           crawl fuel rr sr net c = Some r
           /\ (len_results (state_of r) <= 100)%Z
           /\ forall e c', r = Abort e c' ->
                exists c1 u o,
                  reaches (initialize rr sr c) (Next c1)
                  /\ loop_body o c1 = Abort e c'
                  /\ library_raised c1 u o e.
Proof.
  unfold Gui.start_crawl. split_and!.
  - destruct (strip text =? "") eqn:He.
    + apply String.eqb_eq in He. by rewrite He.
    + apply String.eqb_neq in He. split; [done|]. intros Hs. by rewrite Hs in He.
  - intros r. destruct (strip text =? ""); [done|]. by intros [= <-].
  - intros c Hc. destruct (strip text =? ""); [done|].
    injection Hc as Hinit. intros rr sr net.
    pose proof (start_config _ _ rr sr c Hinit) as Hcfg0.
    set (start := initialize rr sr c) in *.
    destruct (crawl_loop_terminates net start 0) as (fuel & r & Hloop).
    assert (Hr : reaches start r)
      by (eapply crawl_loop_reaches; [apply reaches_start|exact Hloop]).
    exists fuel, r. split_and!; [exact Hloop| |].
    + change 100%Z with (max_pages Gui.default_config).
      rewrite <- Hcfg0.
      apply (reaches_cap start r); [|done].
      rewrite Hcfg0. unfold len_results. subst start.
      by rewrite (fresh_results _ (start_fresh _ _ rr sr c Hinit)).
    + intros e c' ->. apply reaches_abort_library; [|done].
      by rewrite Hcfg0.
Qed.

End Bounds.

(** ** The window *)

Lemma partition_found c pre post :
  c ∉ pre -> Urllib.partition c (pre ++ c :: post) = Some (pre, post).
Proof.
  induction pre as [|a pre IH]; cbn; intros Hc.
  - by rewrite Ascii.eqb_refl.
  - apply not_elem_of_cons in Hc as [Hne Hc].
    destruct (Ascii.eqb a c) eqn:Ha; [by apply Ascii.eqb_eq in Ha|].
    by rewrite IH.
Qed.

Lemma partition_missing c l : c ∉ l -> Urllib.partition c l = None.
Proof.
  induction l as [|a l IH]; cbn; intros Hc; [done|].
  apply not_elem_of_cons in Hc as [Hne Hc].
  destruct (Ascii.eqb a c) eqn:Ha; [by apply Ascii.eqb_eq in Ha|].
  by rewrite IH.
Qed.

Lemma not_elem_of_rev {A} (x : A) l : x ∉ l -> x ∉ rev l.
Proof. rewrite !list_elem_of_In. intros Hx Hin. by apply Hx, in_rev. Qed.

Lemma list_ascii_of_string_app s1 s2 :
  list_ascii_of_string (s1 ++ s2)
  = (list_ascii_of_string s1 ++ list_ascii_of_string s2)%list.
Proof. induction s1 as [|a s1 IH]; [done|]. exact (f_equal (cons a) IH). Qed.

Lemma rsplit_dot_extension b e :
  "."%char ∉ list_ascii_of_string e -> Gui.rsplit_dot (b ++ "." ++ e) = b.
Proof.
  intros He. unfold Gui.rsplit_dot.
  rewrite !list_ascii_of_string_app. cbn.
  rewrite rev_app_distr. cbn. rewrite <- app_assoc. cbn.
  rewrite partition_found by (by apply not_elem_of_rev).
  by rewrite rev_involutive, string_of_list_ascii_of_string.
Qed.

Lemma rsplit_dot_no_dot path :
  "."%char ∉ list_ascii_of_string path -> Gui.rsplit_dot path = path.
Proof.
  intros Hdot. unfold Gui.rsplit_dot.
  by rewrite partition_missing by (by apply not_elem_of_rev).
Qed.

Section ExportFiles.

Context `{Library}.

Lemma write_ok name rows fs :
  write_file name rows = Ok tt ->
  write name rows fs
  = ((fs ++ [{| file_name := name; file_rows := rows |}])%list, Ok tt).
Proof. intros Hw. unfold write. by rewrite Hw. Qed.

Lemma write_raise name rows fs e :
  write_file name rows = Raise e -> write name rows fs = (fs, Raise e).
Proof. intros Hw. unfold write. by rewrite Hw. Qed.

(** [export] writes the files of a complete export in order and stops
    at the first write that raises. *)
Lemma export_writes b c fs :
  exists written r,
    export b c fs = ((fs ++ written)%list, r)
    /\ Forall writable written
    /\ match r with
       | Ok _ => written = export_files b c
       | Raise e =>
           exists f rest,
             export_files b c = (written ++ f :: rest)%list
             /\ write_file (file_name f) (file_rows f) = Raise e
       end.
Proof.
  unfold export, export_files, and_then, writable.
  destruct (write_file (b ++ ".csv") (results c)) as [[]|e] eqn:H1.
  2:{ exists [], (Raise e). rewrite (write_raise _ _ _ _ H1), app_nil_r.
      split_and!; [done|constructor|]. eexists _, _. split; [done|]. done. }
  rewrite (write_ok _ _ _ H1).
  destruct (write_file (b ++ ".xlsx") (results c)) as [[]|e] eqn:H2.
  2:{ eexists [_], (Raise e). rewrite (write_raise _ _ _ _ H2).
      split_and!; [done|by repeat constructor|].
      eexists _, _. split; [done|]. done. }
  rewrite (write_ok _ _ _ H2).
  destruct (write_file (b ++ ".json") (results c)) as [[]|e] eqn:H3.
  2:{ eexists [_; _], (Raise e). rewrite (write_raise _ _ _ _ H3).
      rewrite <- app_assoc.
      split_and!; [done|by repeat constructor|].
      eexists _, _. split; [done|]. done. }
  rewrite (write_ok _ _ _ H3).
  destruct (errors c) as [|p l] eqn:He.
  { eexists [_; _; _], (Ok tt). unfold skip. rewrite <- !app_assoc.
    split_and!; [done|by repeat constructor|done]. }
  destruct (write_file (b ++ "_errors.log") (p :: l)) as [[]|e] eqn:H4.
  - rewrite (write_ok _ _ _ H4).
    eexists [_; _; _; _], (Ok tt). rewrite <- !app_assoc.
    split_and!; [done|by repeat constructor|done].
  - rewrite (write_raise _ _ _ _ H4).
    eexists [_; _; _], (Raise e). rewrite <- !app_assoc.
    split_and!; [done|by repeat constructor|].
    eexists _, []. split; [done|]. done.
Qed.

(** X15. [export_results] does nothing when the dialog is cancelled,
    and raises [AttributeError] when a path is chosen before a crawl was
    ever started, the window having no crawler then.  Otherwise it
    exports under the chosen path without whatever follows its last dot
    (a path without a dot is used as it is): it writes, in this order,
    [<basename>.csv], [<basename>.xlsx] and [<basename>.json] with all
    of [results] and, when [errors] is not empty, [<basename>_errors.log]
    with [errors]; it stops at the first write that raises, the files
    before that one being written in full, and returns when every write
    does. *)
Theorem export_results_files path fs :
  Gui.export_results "" None fs = (fs, Ok tt)
  /\ (forall c, Gui.export_results "" (Some c) fs = (fs, Ok tt))
  /\ (path <> "" -> Gui.export_results path None fs = (fs, Raise AttributeError))
  /\ (forall b e, "."%char ∉ list_ascii_of_string e ->
                  Gui.rsplit_dot (b ++ "." ++ e) = b)
  /\ ("."%char ∉ list_ascii_of_string path -> Gui.rsplit_dot path = path)
  /\ (forall c,
        path <> "" ->
        exists written r,
          Gui.export_results path (Some c) fs = ((fs ++ written)%list, r)
          /\ Forall writable written
          /\ match r with
             | Ok _ => written = export_files (Gui.rsplit_dot path) c
             | Raise e =>
                 exists f rest,
                   export_files (Gui.rsplit_dot path) c
                   = (written ++ f :: rest)%list
                   /\ write_file (file_name f) (file_rows f) = Raise e
             end).
Proof.
  split_and!; try done.
  - intros Hne. unfold Gui.export_results.
    apply String.eqb_neq in Hne. by rewrite Hne.
  - apply rsplit_dot_extension.
  - apply rsplit_dot_no_dot.
  - intros c Hne. unfold Gui.export_results.
    apply String.eqb_neq in Hne. rewrite Hne. apply export_writes.
Qed.

End ExportFiles.

(** X16. In the results table, the cell at a row within the data and a
    column within the seven headers shows the field the header names,
    URL to status in the order of the headers: no lookup fails and the
    error text is never shown.  Outside the data or the headers there is
    no cell, and a row is highlighted exactly when its status is not
    200. *)
Theorem table_cells_show_fields data row :
  (forall col, Gui.display data row col
               = page ← data !! row; row_cells page !! col)
  /\ Gui.highlighted data row
     = (fun page => negb (status page =? 200)%Z) <$> data !! row.
Proof.
  split; [|unfold Gui.highlighted; by destruct (data !! row)].
  intros col. unfold Gui.display.
  destruct (data !! row) as [page|]; cbn; [|done].
  do 7 (destruct col as [|col]; [reflexivity|]). reflexivity.
Qed.

(** ** The further statements on the concrete site *)

Lemma initialize_seeds_queue_witness :
  @init Site.lib "https://example.com/" Site.cfg = Ok (Site.created Site.cfg)
  /\ to_visit Site.start
     = [("/orphan", 0%Z); ("https://example.com", 0%Z)].
Proof.
  split; [reflexivity|].
  destruct (@initialize_seeds_queue Site.lib "https://example.com/" Site.cfg
              (RobotsStatus 404 None)
              (SitemapStatus 200 (Some [Some " /orphan "]))
              (Site.created Site.cfg) eq_refl) as [Hq _].
  exact Hq.
Defined.

Lemma only_allowed_urls_are_requested_witness :
  (@init Site.lib "https://example.com/" Site.cfg = Ok (Site.created Site.cfg)
   /\ @reaches Site.lib Site.at_home Runs.home_step)
  /\ forall u, u ∈ visited (state_of Runs.home_step) ->
       @allowed Site.lib (state_of Runs.home_step) u = Ok true.
Proof.
  split; [split; [reflexivity|exact home_step_reached]|].
  apply (@only_allowed_urls_are_requested Site.lib "https://example.com/"
           Site.cfg (RobotsStatus 404 None) SitemapError
           (Site.created Site.cfg) _ eq_refl home_step_reached).
Defined.

Lemma requests_stay_on_base_host_witness :
  (@init Site.lib "https://example.com/" Site.cfg = Ok (Site.created Site.cfg)
   /\ include_subdomains Site.cfg = false
   /\ @reaches Site.lib Site.at_home Runs.home_step)
  /\ forall u, u ∈ visited (state_of Runs.home_step) ->
       @hostname Site.lib u = Ok None \/ @hostname Site.lib u = Ok (Some "")
       \/ @hostname Site.lib u = Ok (Some "example.com").
Proof.
  split; [split; [reflexivity|split; [reflexivity|exact home_step_reached]]|].
  apply (@requests_stay_on_base_host Site.lib "https://example.com/"
           Site.cfg (RobotsStatus 404 None) SitemapError
           (Site.created Site.cfg) _ eq_refl eq_refl home_step_reached).
Defined.

Lemma errors_hold_the_non_200_records_witness :
  (@init Site.lib "https://example.com/" Site.cfg = Ok (Site.created Site.cfg)
   /\ @reaches Site.lib Site.at_home Runs.home_step)
  /\ forall p, p ∈ errors (state_of Runs.home_step) -> status p <> 200%Z.
Proof.
  split; [split; [reflexivity|exact home_step_reached]|].
  apply (@errors_hold_the_non_200_records Site.lib "https://example.com/"
           Site.cfg (RobotsStatus 404 None) SitemapError
           (Site.created Site.cfg) _ eq_refl home_step_reached).
Defined.

Lemma every_visit_leaves_a_record_witness :
  (@init Site.lib "https://example.com/" Site.cfg = Ok (Site.created Site.cfg)
   /\ @reaches Site.lib Site.at_home Runs.home_step)
  /\ forall p, p ∈ records (state_of Runs.home_step) ->
       url p ∈ visited (state_of Runs.home_step).
Proof.
  split; [split; [reflexivity|exact home_step_reached]|].
  apply (@every_visit_leaves_a_record Site.lib "https://example.com/"
           Site.cfg (RobotsStatus 404 None) SitemapError
           (Site.created Site.cfg) _ eq_refl home_step_reached).
Defined.

Lemma crawl_only_appends_witness :
  @reaches Site.lib Site.at_home Runs.home_step
  /\ results Site.at_home `prefix_of` results (state_of Runs.home_step).
Proof.
  split; [exact home_step_reached|].
  apply (@crawl_only_appends Site.lib _ _ home_step_reached).
Defined.

Lemma crawl_is_breadth_first_witness :
  (@init Site.lib "https://example.com/" Site.cfg = Ok (Site.created Site.cfg)
   /\ @reaches Site.lib Site.at_home Runs.home_step)
  /\ StronglySorted Z.le
       (get_depths (trace (state_of Runs.home_step))
        ++ map snd (to_visit (state_of Runs.home_step))).
Proof.
  split; [split; [reflexivity|exact home_step_reached]|].
  apply (@crawl_is_breadth_first Site.lib "https://example.com/"
           Site.cfg (RobotsStatus 404 None) SitemapError
           (Site.created Site.cfg) _ eq_refl home_step_reached).
Defined.


Lemma progress_counts_the_results_witness :
  (@init Site.lib "https://example.com/" Site.cfg = Ok (Site.created Site.cfg)
   /\ @reaches Site.lib Site.at_home Runs.home_step)
  /\ progress_calls (trace (state_of Runs.home_step))
     = map (fun k => (Z.of_nat k, 10%Z))
           (seq 1 (length (results (state_of Runs.home_step)))).
Proof.
  split; [split; [reflexivity|exact home_step_reached]|].
  apply (@progress_counts_the_results Site.lib "https://example.com/"
           Site.cfg (RobotsStatus 404 None) SitemapError
           (Site.created Site.cfg) _ eq_refl home_step_reached).
Defined.

Lemma deeper_requests_start_with_http_witness :
  (@init Site.lib "https://example.com/" Site.cfg = Ok (Site.created Site.cfg)
   /\ @reaches Site.lib Site.at_home Runs.home_step)
  /\ forall u d, (u, d) ∈ to_visit (state_of Runs.home_step) ->
       (0 <= d)%Z /\ (d <> 0%Z -> Str.startswith u "http" = true).
Proof.
  split; [split; [reflexivity|exact home_step_reached]|].
  apply (@deeper_requests_start_with_http Site.lib "https://example.com/"
           Site.cfg (RobotsStatus 404 None) SitemapError
           (Site.created Site.cfg) _ eq_refl home_step_reached).
Defined.

Lemma negative_max_depth_requests_nothing_witness :
  (@init Site.lib "https://example.com/" Runs.cfg_no_depth
   = Ok (Site.created Runs.cfg_no_depth)
   /\ (max_depth Runs.cfg_no_depth < 0)%Z
   /\ @reaches Site.lib
        (@initialize Site.lib (RobotsStatus 404 None) SitemapError
           (Site.created Runs.cfg_no_depth))
        Runs.no_depth_step)
  /\ visited (state_of Runs.no_depth_step) = ∅
  /\ results (state_of Runs.no_depth_step) = [].
Proof.
  assert (Hr : @reaches Site.lib
                 (@initialize Site.lib (RobotsStatus 404 None) SitemapError
                    (Site.created Runs.cfg_no_depth))
                 Runs.no_depth_step).
  { apply (@reaches_iter Site.lib); [apply (@reaches_start Site.lib)|].
    vm_compute. reflexivity. }
  split; [split; [reflexivity|split; [reflexivity|exact Hr]]|].
  destruct (@negative_max_depth_requests_nothing Site.lib
              "https://example.com/" Runs.cfg_no_depth
              (RobotsStatus 404 None) SitemapError
              (Site.created Runs.cfg_no_depth) _ eq_refl eq_refl Hr)
    as (Hv & Hres & _).
  split; [exact Hv|exact Hres].
Defined.

(** ** The scenarios of the specification *)

(** The home page yields one record titled Home and a depth-1 entry for
    [/about] (and one for the [httpx] link), after one call of the
    observer. *)
Example scenario_home :
  let c := state_of (@loop_body Site.lib (Response 200 Site.home_html)
                                Site.at_home) in
  map title (results c) = ["Home"]
  /\ map url (results c) = ["https://example.com"]
  /\ errors c = []
  /\ to_visit c = [("https://example.com/about", 1%Z);
                   ("httpx://example.com/", 1%Z)]
  /\ trace c = [EvPut "https://example.com" 0; EvGet "https://example.com" 0;
                EvProgress 1 10; EvPut "https://example.com/about" 1;
                EvPut "httpx://example.com/" 1].
Proof. cbn zeta. split_and!; by vm_compute. Qed.

(** A whole crawl of the site: three requests, the second record
    triggering the call of [autosave] on two rows; no exception. *)
Example scenario_crawl :
  option_map (fun o => (map url (results (state_of o)),
                        map status (errors (state_of o)),
                        to_visit (state_of o),
                        map (map url) (snapshots (trace (state_of o))),
                        raised o))
             (@crawl_loop Site.lib 5 Site.net 0 Site.at_home)
  = Some (["https://example.com"; "https://example.com/about";
           "httpx://example.com/"],
          [404%Z; 404%Z], [],
          [["https://example.com"; "https://example.com/about"]], None).
Proof. by vm_compute. Qed.

(** The same crawl on a file system that refuses [autosave.xlsx]: the
    second record is appended, [autosave] is called and raises, and the
    exception ends the crawl. *)
Example scenario_autosave_fails :
  option_map (fun o => (map url (results (state_of o)),
                        map (map url) (snapshots (trace (state_of o))),
                        raised o))
             (@crawl_loop Site.lib_no_xlsx 5 Site.net 0 Site.at_home)
  = Some (["https://example.com"; "https://example.com/about"],
          [["https://example.com"; "https://example.com/about"]],
          Some WriteError).
Proof. by vm_compute. Qed.

(** A link that [urlparse] refuses ends the crawl with [ValueError]. *)
Example scenario_bad_link :
  let page := "<a href='http://[x'>x</a>" in
  let lib := site_library
               [(page, [Tag "a" {[ "href" := "http://[x" ]}
                            [NavigableString "x"]])] [] [] in
  raised (@loop_body lib (Response 200 page) Site.at_home) = Some ValueError.
Proof. by vm_compute. Qed.

Example strip_title : Str.strip "  Home  " = "Home".
Proof. reflexivity. Qed.

Example words_rel : Str.words " canonical  nofollow " = ["canonical"; "nofollow"].
Proof. reflexivity. Qed.

Example find_canonical :
  @Bs4.find Site.lib
            [Tag "head" ∅ [Tag "link" {[ "rel" := "next canonical" ]} []]]
            "link" [("rel", Bs4.HasValue "canonical")]
  = Some (Tag "link" {[ "rel" := "next canonical" ]} []).
Proof. by vm_compute. Qed.

(** [get_text] leaves out the strings of a script inside the heading. *)
Example h1_without_script :
  @Bs4.get_text_strip Site.lib
    (Tag "h1" ∅ [NavigableString " Hello "; Tag "script" ∅ [SpecialString "x()"];
                 Tag "b" ∅ [NavigableString "world "]])
  = "Helloworld".
Proof. by vm_compute. Qed.

Example robots_disallow :
  let p := Robots.parse Urllib.robots_line (fun v => Ok v)
             ["User-agent: *"; "Disallow: /private"] Robots.new in
  (p ≫= fun p => Robots.can_fetch (fun u => Ok (Urllib.request_path u)) p
                   "https://example.com/private/x") = Ok false
  /\ (p ≫= fun p => Robots.can_fetch (fun u => Ok (Urllib.request_path u)) p
                      "https://example.com/public") = Ok true.
Proof. cbn zeta. split; by vm_compute. Qed.

(** The robots parser raises on a crawl delay that passes [isdigit] and
    is no decimal number, and the crawler then has no rules. *)
Example robots_delay_raises :
  @robots_parse Site.lib Site.robots_delay Robots.new = Raise ValueError
  /\ robot_parser
       (@load_robots Site.lib (RobotsStatus 200 (Some Site.robots_delay))
                     (Site.created Site.cfg))
     = @no_rules Site.lib.
Proof. split; by vm_compute. Qed.

(** The window on the site: a blank field starts nothing, a crawler is
    created for the stripped text, and exporting to a path ending in
    [.csv] puts the CSV there; without a crawler exporting raises. *)
Example window_on_site :
  @Gui.start_crawl Site.lib "   " = None
  /\ @Gui.start_crawl Site.lib " https://example.com/ "
     = Some (Ok (Site.created Gui.default_config))
  /\ @Gui.start_crawl Site.lib "http://[x" = Some (Raise ValueError)
  /\ map file_name
         (@Gui.export_results Site.lib "out/site.v2.csv" (Some Site.at_home) []).1
     = ["out/site.v2.csv"; "out/site.v2.xlsx"; "out/site.v2.json"]
  /\ map file_name
         (@Gui.export_results Site.lib "report.final"
            (Some (state_of (@loop_body Site.lib (FetchError "x") Site.at_home)))
            []).1
     = ["report.csv"; "report.xlsx"; "report.json"; "report_errors.log"]
  /\ @Gui.export_results Site.lib "report.csv" None [] = ([], Raise AttributeError)
  /\ @Gui.export_results
       (site_library [] [] ["report.xlsx"]) "report.csv" (Some Site.at_home) []
     = ([{| file_name := "report.csv"; file_rows := [] |}], Raise WriteError).
Proof. split_and!; by vm_compute. Qed.
